(** * Schema-driven serialization engine of shapez.io (js/savegame/serialization.js)

    Shallow embedding of [BasicSerializableObject.getCachedSchema],
    [serializeSchema], [deserializeSchema], [verifySchema] and [extendSchema],
    over a small model of the JavaScript values and objects they touch.

    Modelling conventions.
    - A JavaScript number is an IEEE double: [float].
    - Objects that are mutated or compared by identity (the live object, the
      [mergeWith] target, schema objects) live in a store and are named by a
      location; [VObj] and [VArr] are immutable (frozen) data.
    - An object's own properties form a finite map; what it inherits is
      looked up, by the name of its constructor, in the prototype tables of
      the store. [x.hasOwnProperty(key)] is a method call: it asks
      [Object.prototype.hasOwnProperty] unless [x] has an own property of
      that name, which is data and cannot be called.
    - A schema, which the code enumerates with [for .. in], is the list of
      its own properties in enumeration order. For field names that are not
      array indices ("0", "1", ...) this is the order in which they were
      added, and [schemaSet] adds in that order; statements about the place
      of an added field say so in a hypothesis.
    - The two caches are plain objects ([{}]): under the name of a member of
      [Object.prototype] they answer with that member, which the code cannot
      tell from an entry it has written. The cache maps of the store hold
      what [cache[id]] reads, such members included.
    - The module runs in strict mode: a property access on [null] or
      [undefined], and a property write on frozen or primitive data, throw. *)

From Stdlib Require Import ZArith Floats Uint63 Ascii.
From stdpp Require Import base option list strings gmap fin_maps.

Local Open Scope string_scope.
Local Open Scope list_scope.
#[local] Set Warnings "-register-all".

(** ** Values *)

(** Identity of a stored object. *)
Abbreviation loc := positive (only parsing).

Inductive Val : Type :=
| VUndefined
| VNull
| VBool (b : bool)
| VNum (n : float)
| VStr (s : string)
| VArr (elems : list Val)
| VObj (fields : gmap string Val)
| VRef (l : loc).

(** [!v] is [negb (truthy v)]. *)
Definition truthy (v : Val) : bool :=
  match v with
  | VUndefined | VNull => false
  | VBool b => b
  | VNum n => negb (PrimFloat.is_zero n || PrimFloat.is_nan n)
  | VStr s => negb (String.eqb s "")
  | VArr _ | VObj _ | VRef _ => true
  end.

(** [v === null || v === undefined] *)
Definition isNullish (v : Val) : bool :=
  match v with
  | VUndefined | VNull => true
  | _ => false
  end.

(** A [string|void] result: [None] is [undefined]. *)
Definition statusVal (e : option string) : Val :=
  match e with
  | Some s => VStr s
  | None => VUndefined
  end.

Definition truthyStatus (e : option string) : bool := truthy (statusVal e).

(** ** Faults *)

Inductive Fault : Type :=
| TypeError (msg : string)
| AssertionFailed (msg : string).

(** What evaluating an expression gives: a value, or a thrown fault. *)
Inductive Outcome (A : Type) : Type :=
| Returned (a : A)
| Thrown (f : Fault).
Arguments Returned {A} a.
Arguments Thrown {A} f.

(** ** Descriptors

    The engine uses four methods of a descriptor; the descriptor classes
    themselves are defined in [serialization_data_types.js]. *)

(** Modelled from the spec: the [BaseDataType] interface of
    [serialization_data_types.js] (section 4.1). [serialize] never fails for
    a well-typed live value; on an ill-typed one it may throw (a fatal
    assertion in development builds), which is the fault [serializeSchema]
    catches, logs and rethrows. [verifySerializedValue] and [allowNull] are
    pure, and [deserializeWithVerify] (below, once the store is defined)
    first verifies the raw value's shape, then converts it ([deserialize],
    which may still fail) and assigns the result into the containing
    object's field. *)
Record BaseDataType : Type := {
  allowNull : bool;
  serialize : Val → Outcome Val;
  verifySerializedValue : Val → option string;
  deserialize : Val → Val → string + Val;
}.

(** A schema, [Object.<string, BaseDataType>], as [for (const key in schema)]
    enumerates it. *)
Abbreviation Schema := (list (string * BaseDataType)) (only parsing).

Definition schemaKeys (s : Schema) : list string := s.*1.

(** [schema.hasOwnProperty(key)] *)
Definition schemaHas (s : Schema) (key : string) : bool :=
  bool_decide (key ∈ schemaKeys s).

(** [schema[key]] *)
Fixpoint schemaGet (s : Schema) (key : string) : option BaseDataType :=
  match s with
  | [] => None
  | (k, d) :: rest => if decide (k = key) then Some d else schemaGet rest key
  end.

(** [schema[key] = d]: an existing property keeps its place in the
    enumeration order, a new one is enumerated last. (JavaScript enumerates
    array-index names first; [schemaSet] is exact for all other names.) *)
Fixpoint schemaSet (s : Schema) (key : string) (d : BaseDataType) : Schema :=
  match s with
  | [] => [(key, d)]
  | (k, d') :: rest =>
      if decide (k = key) then (k, d) :: rest else (k, d') :: schemaSet rest key d
  end.

(** ** Store *)

Record JsObject : Type := {
  constructorName : string;          (* obj.constructor.name *)
  own : gmap string Val;             (* own properties *)
}.

(** [{}] *)
Definition emptyObject : JsObject := {| constructorName := "Object"; own := ∅ |}.

(** A class deriving from [BasicSerializableObject]: [cls] is the identity of
    the class object ([===] on classes), [getId] the value its static
    [getId()] returns, and [getSchema] its schema-construction logic, which
    builds schema objects in the store and returns one of them. *)
Record SerializableClass : Type := {
  cls : positive;
  name : string;
  getId : string;
  getSchema : gmap loc Schema → loc * gmap loc Schema;
}.

(** The program state the engine reads and writes.
    - [objects]: the live objects, by identity.
    - [schemas]: what [for .. in] enumerates on the objects used as schemas.
    - [globalSchemaCache], [classnamesCache]: what [cache[id]] reads on the
      two module-level caches. They are plain objects, so next to the
      entries the code has written these maps hold, under the name of each
      member of [Object.prototype], that member.
    - [prototypes]: by constructor name, the members an object built by that
      constructor inherits through its prototype chain. *)
Record Store : Type := {
  objects : gmap loc JsObject;
  schemas : gmap loc Schema;
  globalSchemaCache : gmap string loc;
  classnamesCache : gmap string positive;
  prototypes : gmap string (gmap string Val);
}.

(** Arguments of a log call: string parts, values and schema references. *)
Inductive LogArg : Type :=
| LStr (s : string)
| LVal (v : Val)
| LSchema (r : loc)
| LFault (ex : Fault).

(** Calls into descriptors and classes made by the engine, oldest first. *)
Inductive Call : Type :=
| CallSerialize (key : string) (value : Val)
| CallDeserializeWithVerify (key : string) (value : Val)
| CallVerifySerializedValue (key : string) (value : Val)
| CallGetSchema (c : positive).

Record World : Type := {
  store : Store;
  console : list (list LogArg);      (* logger.error / error output *)
  calls : list Call;
}.

Definition setObjects (f : gmap loc JsObject → gmap loc JsObject) (w : World) : World :=
  {| store := {| objects := f (objects (store w));
                 schemas := schemas (store w);
                 globalSchemaCache := globalSchemaCache (store w);
                 classnamesCache := classnamesCache (store w);
                 prototypes := prototypes (store w) |};
     console := console w; calls := calls w |}.

Definition setSchemas (f : gmap loc Schema → gmap loc Schema) (w : World) : World :=
  {| store := {| objects := objects (store w);
                 schemas := f (schemas (store w));
                 globalSchemaCache := globalSchemaCache (store w);
                 classnamesCache := classnamesCache (store w);
                 prototypes := prototypes (store w) |};
     console := console w; calls := calls w |}.

Definition setGlobalSchemaCache (f : gmap string loc → gmap string loc) (w : World) : World :=
  {| store := {| objects := objects (store w);
                 schemas := schemas (store w);
                 globalSchemaCache := f (globalSchemaCache (store w));
                 classnamesCache := classnamesCache (store w);
                 prototypes := prototypes (store w) |};
     console := console w; calls := calls w |}.

Definition setClassnamesCache (f : gmap string positive → gmap string positive) (w : World) : World :=
  {| store := {| objects := objects (store w);
                 schemas := schemas (store w);
                 globalSchemaCache := globalSchemaCache (store w);
                 classnamesCache := f (classnamesCache (store w));
                 prototypes := prototypes (store w) |};
     console := console w; calls := calls w |}.

Definition addLog (line : list LogArg) (w : World) : World :=
  {| store := store w; console := console w ++ [line]; calls := calls w |}.

Definition addCall (c : Call) (w : World) : World :=
  {| store := store w; console := console w; calls := calls w ++ [c] |}.

(** ** Computations: state and faults *)

Definition M (A : Type) : Type := World → Outcome A * World.

#[global] Instance M_ret : MRet M := λ A a w, (Returned a, w).
#[global] Instance M_bind : MBind M := λ A B f c w,
  match c w with
  | (Returned a, w') => f a w'
  | (Thrown e, w') => (Thrown e, w')
  end.

Definition throw {A} (e : Fault) : M A := λ w, (Thrown e, w).
(** The outcome of a call that does not touch the program state. *)
Definition evaluate {A} (o : Outcome A) : M A := λ w, (o, w).
Definition getWorld : M World := λ w, (Returned w, w).
Definition modifyWorld (f : World → World) : M unit := λ w, (Returned tt, f w).

(** [logger.error(...)] and the global [error(...)]: console output only. *)
Definition logError (line : list LogArg) : M unit := modifyWorld (addLog line).

Definition recordCall (c : Call) : M unit := modifyWorld (addCall c).

(** [assert(cond, msg)]: throws in development builds, compiled out of
    production builds. *)
Definition assert (G_IS_DEV : bool) (cond : bool) (msg : string) : M unit :=
  if G_IS_DEV && negb cond then throw (AssertionFailed msg) else mret tt.

Definition tryCatch {A} (c : M A) (handler : Fault → M A) : M A := λ w,
  match c w with
  | (Thrown e, w') => handler e w'
  | r => r
  end.

(** ** Property access *)

Definition floatOfNat (n : nat) : float :=
  PrimFloat.of_uint63 (Uint63.of_Z (Z.of_nat n)).

Definition digitOf (a : ascii) : option nat :=
  let n := nat_of_ascii a in
  if (48 <=? n)%nat && (n <=? 57)%nat then Some (n - 48)%nat else None.

Fixpoint parseDigits (s : string) (acc : nat) : option nat :=
  match s with
  | EmptyString => Some acc
  | String a rest =>
      match digitOf a with
      | Some d => parseDigits rest (10 * acc + d)%nat
      | None => None
      end
  end.

(** The index a property name denotes, if it is a canonical one ("0", "12",
    but not "" or "01"). *)
Definition arrayIndex (s : string) : option nat :=
  match s with
  | EmptyString => None
  | String a rest =>
      if Ascii.eqb a "0" && negb (String.eqb rest "") then None else parseDigits s 0
  end.

Fixpoint stringChars (s : string) : list Val :=
  match s with
  | EmptyString => []
  | String a rest => VStr (String a EmptyString) :: stringChars rest
  end.

(** Own properties of strings and arrays: the indices and "length". *)
Definition indexedOwn (elems : list Val) (key : string) : option Val :=
  if String.eqb key "length" then Some (VNum (floatOfNat (length elems)))
  else match arrayIndex key with
       | Some i => elems !! i
       | None => None
       end.

(** The own property [key] of [v], if it has one; reading a property of
    [null] or [undefined] throws. *)
Definition ownProperty (objs : gmap loc JsObject) (v : Val) (key : string) : Outcome (option Val) :=
  match v with
  | VUndefined => Thrown (TypeError "Cannot read properties of undefined")
  | VNull => Thrown (TypeError "Cannot read properties of null")
  | VBool _ | VNum _ => Returned None
  | VStr s => Returned (indexedOwn (stringChars s) key)
  | VArr elems => Returned (indexedOwn elems key)
  | VObj fields => Returned (fields !! key)
  | VRef l =>
      match objs !! l with
      | Some o => Returned (own o !! key)
      | None => Thrown (TypeError "Cannot read properties of undefined")
      end
  end.

Definition getOwnProperty (v : Val) (key : string) : M (option Val) := λ w,
  (ownProperty (objects (store w)) v key, w).

(** [v.hasOwnProperty(key)]: a method call. The method is the one every
    value inherits from [Object.prototype], unless [v] has an own property
    named "hasOwnProperty": that one is found first, and being data it
    cannot be called. *)
Definition hasOwnProperty (v : Val) (key : string) : M bool :=
  method ← getOwnProperty v "hasOwnProperty";
  match method with
  | Some _ => throw (TypeError "hasOwnProperty is not a function")
  | None => o ← getOwnProperty v key; mret (bool_decide (is_Some o))
  end.

(** The name of the constructor whose prototype chain [v] reads through. *)
Definition prototypeOf (objs : gmap loc JsObject) (v : Val) : option string :=
  match v with
  | VUndefined | VNull => None
  | VBool _ => Some "Boolean"
  | VNum _ => Some "Number"
  | VStr _ => Some "String"
  | VArr _ => Some "Array"
  | VObj _ => Some "Object"
  | VRef l => constructorName <$> objs !! l
  end.

(** What the prototype chain of [v] provides under [key]. *)
Definition inheritedProperty (st : Store) (v : Val) (key : string) : option Val :=
  match prototypeOf (objects st) v with
  | Some constructor =>
      match prototypes st !! constructor with
      | Some members => members !! key
      | None => None
      end
  | None => None
  end.

(** [v[key]]: the own property, else the inherited one, else [undefined]. *)
Definition getProp (v : Val) (key : string) : M Val :=
  o ← getOwnProperty v key;
  match o with
  | Some x => mret x
  | None => w ← getWorld; mret (default VUndefined (inheritedProperty (store w) v key))
  end.

Definition writeOwn (l : loc) (key : string) (x : Val) (objs : gmap loc JsObject) : gmap loc JsObject :=
  alter (λ o, {| constructorName := constructorName o; own := <[key := x]> (own o) |}) l objs.

(** [target[key] = x] *)
Definition setProp (target : Val) (key : string) (x : Val) : M unit := λ w,
  match target with
  | VRef l =>
      match objects (store w) !! l with
      | Some _ => (Returned tt, setObjects (writeOwn l key x) w)
      | None => (Thrown (TypeError "Cannot set properties of undefined"), w)
      end
  | VUndefined => (Thrown (TypeError "Cannot set properties of undefined"), w)
  | VNull => (Thrown (TypeError "Cannot set properties of null"), w)
  | VObj _ | VArr _ => (Thrown (TypeError "Cannot add property, object is not extensible"), w)
  | VBool _ | VNum _ | VStr _ => (Thrown (TypeError "Cannot create property on primitive"), w)
  end.

(** [v.constructor.name] *)
Definition constructorNameOf (v : Val) : M string := λ w,
  match v with
  | VUndefined => (Thrown (TypeError "Cannot read properties of undefined"), w)
  | VNull => (Thrown (TypeError "Cannot read properties of null"), w)
  | VBool _ => (Returned "Boolean", w)
  | VNum _ => (Returned "Number", w)
  | VStr _ => (Returned "String", w)
  | VArr _ => (Returned "Array", w)
  | VObj _ => (Returned "Object", w)
  | VRef l =>
      match objects (store w) !! l with
      | Some o => (Returned (constructorName o), w)
      | None => (Thrown (TypeError "Cannot read properties of undefined"), w)
      end
  end.

(** [{}] as an expression: a new object. *)
Definition newObject : M loc := λ w,
  let l := fresh (dom (objects (store w))) in
  (Returned l, setObjects <[l := emptyObject]> w).

(** The enumerable properties of the schema object at [r]; a dangling
    reference enumerates nothing, as [for .. in] over [undefined] does. *)
Definition schemaAt (w : World) (r : loc) : Schema :=
  default [] (schemas (store w) !! r).

(** Modelled from the spec: [BaseDataType.deserializeWithVerify(value,
    targetObject, targetKey, root)] of [serialization_data_types.js]: first
    verifies the raw value's shape, then converts and assigns into the
    containing object's field; an error description is returned, not thrown. *)
Definition deserializeWithVerify (d : BaseDataType) (value targetObject : Val)
    (targetKey : string) (root : Val) : M (option string) :=
  match verifySerializedValue d value with
  | Some errorCode => mret (Some errorCode)
  | None =>
      match deserialize d value root with
      | inl errorCode => mret (Some errorCode)
      | inr live => setProp targetObject targetKey live;; mret None
      end
  end.

(** ** The engine *)

(** [for (const key in schema) { body }] where the body may [return]:
    [Some a] is [return a], [None] falls through to the next key. *)
Fixpoint forIn {A} (s : Schema) (body : string → BaseDataType → M (option A)) : M (option A) :=
  match s with
  | [] => mret None
  | (key, d) :: rest =>
      r ← body key d;
      match r with
      | Some a => mret (Some a)
      | None => forIn rest body
      end
  end.

Section Engine.
(** The build flag: development builds keep [assert] and the
    [dev:start .. dev:end] blocks. *)
Variable G_IS_DEV : bool.

Definition getCachedSchema (this : SerializableClass) : M loc :=
  let id := getId this in
  (if G_IS_DEV then
     w ← getWorld;
     let seen := classnamesCache (store w) !! id in
     assert G_IS_DEV
       (bool_decide (seen = Some (cls this)) || bool_decide (seen = None))
       ("Class name taken twice: " +:+ id +:+ " (from " +:+ name this +:+ ")");;
     modifyWorld (setClassnamesCache <[id := cls this]>)
   else mret tt);;
  w ← getWorld;
  match globalSchemaCache (store w) !! id with
  | Some entry => mret entry
  | None =>
      recordCall (CallGetSchema (cls this));;
      w ← getWorld;
      let '(schema, schemas') := getSchema this (schemas (store w)) in
      modifyWorld (setSchemas (λ _, schemas'));;
      modifyWorld (setGlobalSchemaCache <[id := schema]>);;
      mret schema
  end.

Definition serializeField (obj : Val) (schema : loc) (mergeWith : Val)
    (key : string) (d : BaseDataType) : M (option Val) :=
  has ← hasOwnProperty obj key;
  (if negb has then
     logError [LStr "Invalid schema, property"; LStr key; LStr "does not exist on";
               LVal obj; LStr "(schema="; LSchema schema; LStr ")"];;
     assert G_IS_DEV has
       ("serialization: invalid schema, property does not exist on object: " +:+ key)
   else mret tt);;
  (* [!schema[key]] is false: a descriptor is an object *)
  let assign : M unit :=
    value ← getProp obj key;
    recordCall (CallSerialize key value);;
    raw ← evaluate (serialize d value);
    setProp mergeWith key raw in
  (if G_IS_DEV then
     tryCatch assign (λ ex,
       logError [LStr "Serialization of"; LVal obj;
                 LStr ("failed on key '" +:+ key +:+ "' ->"); LFault ex;
                 LStr "(schema was"; LSchema schema; LStr ")"];;
       throw ex)
   else assign);;
  mret None.

Definition serializeSchema (obj : Val) (schema : loc) (mergeWith : Val) : M Val :=
  mergeWith ← (match mergeWith with
               | VUndefined => l ← newObject; mret (VRef l)
               | _ => mret mergeWith
               end);
  w ← getWorld;
  forIn (schemaAt w schema) (serializeField obj schema mergeWith);;
  mret mergeWith.

Definition deserializeField (obj : Val) (schema : loc) (data : Val)
    (key : string) (d : BaseDataType) : M (option Val) :=
  has ← hasOwnProperty data key;
  if negb has then
    logError [LStr "Data"; LVal data; LStr "does not contain"; LStr key;
              LStr "(schema:"; LSchema schema; LStr ")"];;
    cname ← constructorNameOf obj;
    mret (Some (VStr ("Missing key in schema: " +:+ key +:+ " of class " +:+ cname)))
  else
    value ← getProp data key;
    if negb (allowNull d) && isNullish value then
      logError [LStr "Data"; LVal data; LStr "has null value for"; LStr key;
                LStr "(schema:"; LSchema schema; LStr ")"];;
      cname ← constructorNameOf obj;
      mret (Some (VStr ("Non-nullable entry is null: " +:+ key +:+ " of class " +:+ cname)))
    else
      root ← getProp obj "root";
      recordCall (CallDeserializeWithVerify key value);;
      errorStatus ← deserializeWithVerify d value obj key root;
      if truthyStatus errorStatus then
        root ← getProp obj "root";
        logError [LStr "serialization"; LStr "Deserialization failed with error '";
                  LVal (statusVal errorStatus); LStr "' on object"; LVal obj;
                  LStr "and key"; LStr key; LStr "(root? =";
                  LStr (if truthy root then "y" else "n"); LStr ")"];;
        mret (Some (statusVal errorStatus))
      else mret None.

Definition deserializeSchema (obj : Val) (schema : loc) (data : Val)
    (baseclassErrorResult : Val) : M Val :=
  if truthy baseclassErrorResult then mret baseclassErrorResult
  else if negb (truthy data) then
    logError [LStr "Got 'NULL' data for"; LVal obj; LStr "and schema";
              LSchema schema; LStr "!"];;
    mret (VStr "Got null data")
  else
    w ← getWorld;
    r ← forIn (schemaAt w schema) (deserializeField obj schema data);
    mret (default VUndefined r).

Definition verifyField (schema : loc) (data : Val)
    (key : string) (d : BaseDataType) : M (option Val) :=
  has ← hasOwnProperty data key;
  if negb has then
    logError [LStr "verify"; LStr "Data"; LVal data; LStr "does not contain"; LStr key;
              LStr "(schema:"; LSchema schema; LStr ")"];;
    mret (Some (VStr ("verify: missing key required by schema in stored data: " +:+ key)))
  else
    value ← getProp data key;
    if negb (allowNull d) && isNullish value then
      logError [LStr "verify"; LStr "Data"; LVal data; LStr "has null value for"; LStr key;
                LStr "(schema:"; LSchema schema; LStr ")"];;
      mret (Some (VStr ("verify: non-nullable entry is null: " +:+ key)))
    else
      recordCall (CallVerifySerializedValue key value);;
      let errorStatus := verifySerializedValue d value in
      if truthyStatus errorStatus then
        logError [LStr "verify"; LVal (statusVal errorStatus)];;
        mret (Some (VStr ("verify: " +:+ default "" errorStatus)))
      else mret None.

Definition verifySchema (schema : loc) (data : Val) : M Val :=
  w ← getWorld;
  r ← forIn (schemaAt w schema) (verifyField schema data);
  mret (default VUndefined r).

Definition extendField (result : loc) (key : string) (d : BaseDataType) : M (option Val) :=
  w ← getWorld;
  (if schemaHas (schemaAt w result) key then
     logError [LStr "Extend schema got duplicate key:"; LStr key]
   else
     modifyWorld (setSchemas (alter (λ s, schemaSet s key d) result)));;
  mret None.

Definition extendSchema (base newOne : loc) : M loc :=
  w ← getWorld;
  let result := fresh (dom (schemas (store w))) in
  modifyWorld (setSchemas <[result := schemaAt w base]>);;
  w ← getWorld;
  forIn (schemaAt w newOne) (extendField result);;
  mret result.

End Engine.

(** ** Descriptors of the scenarios *)

Module DataTypes.

(** Modelled from the spec: the scalar kind an integer leaf checks,
    [Number.isInteger(n)]. *)
Definition isInteger (n : float) : bool :=
  match Prim2SF n with
  | S754_zero _ => true
  | S754_finite _ m e => (0 <=? e)%Z || (Z.pos m mod 2 ^ (- e) =? 0)%Z
  | _ => false
  end.

(** Modelled from the spec: the unsigned integer leaf, which [types.uint]
    is (sections 3 and 4.1): it serializes to the plain scalar itself,
    verifies scalar kind and range, and accepts no [null]. *)
Definition TypePositiveInteger : BaseDataType :=
  {| allowNull := false;
     serialize := λ value, Returned value;
     verifySerializedValue := λ raw,
       match raw with
       | VNum n =>
           if isInteger n && (0 <=? n)%float then None
           else Some "Not a valid positive number"
       | _ => Some "Unexpected kind of value"
       end;
     deserialize := λ raw _, inr raw |}.

(** Modelled from the spec: the enum leaf, which [types.enum(values)]
    builds (sections 3 and 4.1): it verifies that the raw value is one of a
    fixed set of string literals. *)
Definition TypeEnum (values : list string) : BaseDataType :=
  {| allowNull := false;
     serialize := λ value, Returned value;
     verifySerializedValue := λ raw,
       match raw with
       | VStr s =>
           if bool_decide (s ∈ values) then None else Some ("Unknown enum value: " +:+ s)
       | _ => Some "Unexpected kind of value"
       end;
     deserialize := λ raw _, inr raw |}.

(** Modelled from the spec: an unsigned integer leaf whose [serialize]
    treats an ill-typed live value as a fatal assertion, as section 4.1
    allows in development builds. *)
Definition TypePositiveIntegerAsserting : BaseDataType :=
  {| allowNull := false;
     serialize := λ value,
       match value with
       | VNum _ => Returned value
       | _ => Thrown (AssertionFailed "Type positive integer got non-number for serialize")
       end;
     verifySerializedValue := verifySerializedValue TypePositiveInteger;
     deserialize := deserialize TypePositiveInteger |}.

End DataTypes.

(** ** Vocabulary of the statements *)

(** A recorded call is a [verifySerializedValue] of a field of [s]. *)
Definition isVerifyCallOf (s : Schema) (c : Call) : Prop :=
  ∃ key value d, c = CallVerifySerializedValue key value ∧ (key, d) ∈ s.

(** A value whose properties can be read: neither [null] nor [undefined],
    nor a reference to nothing. *)
Definition readable (objs : gmap loc JsObject) (v : Val) : Prop :=
  match v with
  | VUndefined | VNull => False
  | VRef l => is_Some (objs !! l)
  | _ => True
  end.

(** A recorded call is a [deserializeWithVerify] of one of [keys]. *)
Definition isDeserializeCallOf (keys : list string) (c : Call) : Prop :=
  ∃ key value, c = CallDeserializeWithVerify key value ∧ key ∈ keys.

(** What one iteration may change: the field [key] of the live object, and
    nothing else. *)
Record stepFrame (l : loc) (keys : list string) (w w' : World) : Prop := {
  frame_obj : ∀ o, objects (store w) !! l = Some o →
      ∃ o', objects (store w') !! l = Some o' ∧ constructorName o' = constructorName o;
  frame_readable : ∀ v, readable (objects (store w)) v → readable (objects (store w')) v;
  frame_other : ∀ v key', key' ∉ keys →
      ownProperty (objects (store w')) v key' = ownProperty (objects (store w)) v key';
  frame_calls : ∃ added, calls w' = calls w ++ added ∧ Forall (isDeserializeCallOf keys) added;
}.

(** The payload's value under a field deserializes: it is there, passes the
    null check, verifies, and converts. *)
Definition deserializes (d : BaseDataType) (r : Outcome (option Val)) : Prop :=
  ∃ raw, r = Returned (Some raw) ∧
    negb (allowNull d) && isNullish raw = false ∧
    verifySerializedValue d raw = None ∧
    ∀ root, ∃ live, deserialize d raw root = inr live.

(** The payload's value under a field reaches the descriptor, which reports
    the error [err], from its verification or from its conversion. *)
Definition descriptorFails (d : BaseDataType) (r : Outcome (option Val)) (err : string) : Prop :=
  ∃ raw, r = Returned (Some raw) ∧
    negb (allowNull d) && isNullish raw = false ∧
    err ≠ "" ∧
    (verifySerializedValue d raw = Some err ∨
     (verifySerializedValue d raw = None ∧ ∀ root, deserialize d raw root = inl err)).



Definition duplicateKeyLog (key : string) : list LogArg :=
  [LStr "Extend schema got duplicate key:"; LStr key].

(** ** The runtime when the module is loaded

    The part of the runtime that the caches and inherited reads depend on:
    the members of [Object.prototype]. *)
Module Runtime.

(** The methods of [Object.prototype], each with the [name] and [length]
    of its function object; the member "constructor" is [Object]. *)
Definition objectPrototypeMethods : list (string * (string * nat)) :=
  [("constructor", ("Object", 1)%nat);
   ("__defineGetter__", ("__defineGetter__", 2)%nat);
   ("__defineSetter__", ("__defineSetter__", 2)%nat);
   ("hasOwnProperty", ("hasOwnProperty", 1)%nat);
   ("__lookupGetter__", ("__lookupGetter__", 1)%nat);
   ("__lookupSetter__", ("__lookupSetter__", 1)%nat);
   ("isPrototypeOf", ("isPrototypeOf", 1)%nat);
   ("propertyIsEnumerable", ("propertyIsEnumerable", 1)%nat);
   ("toString", ("toString", 0)%nat);
   ("valueOf", ("valueOf", 0)%nat);
   ("toLocaleString", ("toLocaleString", 0)%nat)].

Definition functionObject (name : string) (length : nat) : JsObject :=
  {| constructorName := "Function";
     own := {[ "name" := VStr name; "length" := VNum (floatOfNat length) ]} |}.

(** The identity of each member: the methods from 101 on, in the order
    above, and [Object.prototype] itself, which "__proto__" reads, last. *)
Fixpoint identities (first : positive) (members : list (string * (string * nat)))
    : list (string * positive) :=
  match members with
  | [] => []
  | (member, _) :: rest => (member, first) :: identities (Pos.succ first) rest
  end.

Definition members : list (string * positive) :=
  identities 101 objectPrototypeMethods ++ [("__proto__", 112%positive)].

Definition objectPrototype : JsObject :=
  {| constructorName := "Object";
     own := <["__proto__" := VNull]>
              (list_to_map ((λ m, (m.1, VRef m.2)) <$> identities 101 objectPrototypeMethods)) |}.

Definition memberObjects : gmap loc JsObject :=
  <[112%positive := objectPrototype]>
    (list_to_map (zip (identities 101 objectPrototypeMethods).*2
                      ((λ m, functionObject m.2.1 m.2.2) <$> objectPrototypeMethods))).

(** [const globalSchemaCache = {}], [const classnamesCache = {}] and the
    runtime around them, before any class has been asked for its schema:
    both caches answer with the inherited member under each of the twelve
    names, and a plain object reads the same members.  A member has no
    enumerable property. *)
Definition atLoad : World :=
  {| store := {| objects := memberObjects;
                 schemas := list_to_map ((λ m, (m.2, [])) <$> members);
                 globalSchemaCache := list_to_map members;
                 classnamesCache := list_to_map members;
                 prototypes := {[ "Object" := list_to_map ((λ m, (m.1, VRef m.2)) <$> members) ]} |};
     console := [];
     calls := [] |}.

(** A class that calls itself "toString". *)
Definition Stringer : SerializableClass :=
  {| cls := 1;
     name := "Stringer";
     getId := "toString";
     getSchema := λ schemas,
       let r := fresh (dom schemas) in (r, <[r := []]> schemas) |}.

End Runtime.

(** ** The end-to-end scenario of the specification

    Schema [{level: uint, reward: enum(["none", "belt"])}], walked in that
    order. *)

Module Scenario.
Import DataTypes.

(** [types.uint] and [types.enum(["none", "belt"])] *)
Definition uint : BaseDataType := TypePositiveInteger.
Definition rewardEnum : BaseDataType := TypeEnum ["none"; "belt"].

Definition goalSchema : Schema := [("level", uint); ("reward", rewardEnum)].

(** A class inheriting [getSchema() { return {}; }], as [HubGoals] does. *)
Definition HubGoals : SerializableClass :=
  {| cls := 1;
     name := "HubGoals";
     getId := "HubGoals";
     getSchema := λ schemas,
       let r := fresh (dom schemas) in (r, <[r := []]> schemas) |}.

(** Object 1 is a freshly constructed goal object, object 2 a goal object
    with both fields set, object 3 a partly filled serialization target;
    schema 1 is [goalSchema].  The caches and the prototype tables hold
    nothing under the names the runs of this scenario ask for, and those
    names are all the scenario keeps of them. *)
Definition fresh1 : JsObject := {| constructorName := "HubGoals"; own := ∅ |}.
Definition live2 : JsObject :=
  {| constructorName := "HubGoals";
     own := {[ "level" := VNum 3%float; "reward" := VStr "belt" ]} |}.
Definition target3 : JsObject :=
  {| constructorName := "Object"; own := {[ "base" := VStr "kept" ]} |}.

Definition world : World :=
  {| store := {| objects := {[ 1%positive := fresh1; 2%positive := live2;
                               3%positive := target3 ]};
                 schemas := {[ 1%positive := goalSchema ]};
                 globalSchemaCache := ∅;
                 classnamesCache := ∅;
                 prototypes := ∅ |};
     console := [];
     calls := [] |}.

Definition nuclear : Val :=
  VObj {[ "level" := VNum 3%float; "reward" := VStr "nuclear" ]}.
Definition nullLevel : Val :=
  VObj {[ "level" := VNull; "reward" := VStr "belt" ]}.

Definition nuclearShadowed : Val :=
  VObj {[ "level" := VNum 3%float; "reward" := VStr "nuclear";
          "hasOwnProperty" := VNum 1%float ]}.
Definition liveShadowed : Val :=
  VObj {[ "level" := VNum 3%float; "reward" := VStr "belt";
          "hasOwnProperty" := VNum 1%float ]}.

End Scenario.

(** ** The persistable base class *)

Module BasicSerializableObject.

(** [static getSchema() { return {}; }] *)
Definition getSchema : gmap loc Schema → loc * gmap loc Schema :=
  λ schemas, let r := fresh (dom schemas) in (r, <[r := []]> schemas).

Section Methods.
Variable G_IS_DEV : bool.

(** [serialize()], with [class] for [this.constructor]. *)
Definition serialize (this : Val) (class : SerializableClass) : M Val :=
  schema ← getCachedSchema G_IS_DEV class;
  serializeSchema G_IS_DEV this schema VUndefined.

(** [deserialize(data)] *)
Definition deserialize (this : Val) (class : SerializableClass) (data : Val) : M Val :=
  schema ← getCachedSchema G_IS_DEV class;
  deserializeSchema this schema data VNull.


End Methods.

End BasicSerializableObject.

(** ** More vocabulary *)

(** [v[key]] as a pure read of the store: the own property, else the
    inherited one, else [undefined]. *)
Definition propertyOf (st : Store) (v : Val) (key : string) : Val :=
  match ownProperty (objects st) v key with
  | Returned (Some x) => x
  | Returned None => default VUndefined (inheritedProperty st v key)
  | Thrown _ => VUndefined
  end.

(** [v] can be asked [v.hasOwnProperty(key)]: its properties can be read and
    none of its own is named "hasOwnProperty". *)
Definition answersOwnership (objs : gmap loc JsObject) (v : Val) : Prop :=
  ownProperty objs v "hasOwnProperty" = Returned None.

(** [!v.hasOwnProperty(key)], for a [v] that can be asked. *)
Definition lacksOwn (objs : gmap loc JsObject) (v : Val) (key : string) : bool :=
  match ownProperty objs v key with
  | Returned None => true
  | _ => false
  end.

(** The line [serializeSchema] logs for a field the object lacks. *)
Definition missingFieldLog (obj : Val) (schema : loc) (key : string) : list LogArg :=
  [LStr "Invalid schema, property"; LStr key; LStr "does not exist on";
   LVal obj; LStr "(schema="; LSchema schema; LStr ")"].


(** Two worlds that differ at most in their console output. *)
Definition sameState (w v : World) : Prop := store w = store v ∧ calls w = calls v.

(** ** A derived class

    The goal class of the scenario with a subclass that adds a field of its
    own: schema 3 holds the subclass's own field, schema 4 the inherited
    fields followed by it, and schema 2 redeclares [level].  Object 4 is a
    live instance of the subclass. *)
Module Derived.
Import DataTypes Scenario.

Definition ownSchema : Schema := [("bonus", uint)].
Definition clashing : Schema := [("level", rewardEnum); ("bonus", uint)].

Definition live4 : JsObject :=
  {| constructorName := "BonusGoals";
     own := {[ "level" := VNum 3%float; "reward" := VStr "belt"; "bonus" := VNum 7%float ]} |}.

Definition payload : Val :=
  VObj {[ "level" := VNum 3%float; "reward" := VStr "belt"; "bonus" := VNum 7%float ]}.

Definition levelOnly : Val := VObj {[ "level" := VNum 3%float ]}.

Definition family : World :=
  {| store := {| objects := {[ 1%positive := fresh1; 2%positive := live2;
                               3%positive := target3; 4%positive := live4 ]};
                 schemas := {[ 1%positive := goalSchema; 2%positive := clashing;
                               3%positive := ownSchema;
                               4%positive := goalSchema ++ ownSchema ]};
                 globalSchemaCache := ∅;
                 classnamesCache := ∅;
                 prototypes := ∅ |};
     console := [];
     calls := [] |}.

(** The identifier "HubGoals" registered and cached by another class. *)
Definition taken : World :=
  setClassnamesCache <["HubGoals" := 2%positive]>
    (setGlobalSchemaCache <["HubGoals" := 1%positive]> family).

(** A schema whose second field is typed by a descriptor that asserts on
    [serialize], and an object whose [bonus] is ill-typed for it. *)
Definition assertingSchema : Schema :=
  [("level", uint); ("bonus", TypePositiveIntegerAsserting); ("reward", rewardEnum)].

Definition illTyped : Val :=
  VObj {[ "level" := VNum 3%float; "bonus" := VStr "seven"; "reward" := VStr "belt" ]}.

Definition asserting : World := setSchemas <[5%positive := assertingSchema]> family.

(** A schema with a field named like a method every plain object inherits,
    and the runtime at load with that schema (as schema 1) and the target
    object 3. *)
Definition inheritingSchema : Schema := [("level", uint); ("toString", uint)].

Definition inheriting : World :=
  setObjects <[3%positive := target3]>
    (setSchemas <[1%positive := inheritingSchema]> Runtime.atLoad).

End Derived.

(** * The sound interface (js/platform/sound.js)

    [SoundInterface] drives sound and music instances whose [play], [stop],
    [load] and [isPlaying] are abstract: a call of one of them is an event of
    the run, and the answer of [isPlaying] is supplied by the caller of the
    model.  Instances are objects, compared by identity. *)
Module Sound.

Definition SOUNDS : list (string * string) :=
  [("uiClick", "ui/ui_click.mp3");
   ("uiError", "ui/ui_error.mp3");
   ("dialogError", "ui/dialog_error.mp3");
   ("dialogOk", "ui/dialog_ok.mp3");
   ("swishHide", "ui/ui_swish_hide.mp3");
   ("swishShow", "ui/ui_swish_show.mp3")].

Definition MUSIC : list (string * string) :=
  [("mainMenu", "main_menu.mp3");
   ("gameBg", "theme_full.mp3")].

(** [new this.soundClass(key, url)], [new this.musicClass(key, url)]: [id] is
    the identity of the instance. *)
Record Instance : Type := {
  id : positive;
  key : string;
  url : string;
}.

Inductive Level : Type := LError | LWarn | LLog.

Inductive Event : Type :=
  | SoundPlay (i : Instance) (volume : float)
  | MusicPlay (i : Instance)
  | MusicStop (i : Instance)
  | Load (i : Instance)
  | Logged (level : Level) (line : list string).

(** [this.currentMusic]: [null] after construction, then whatever
    [this.music[key]] gave, [undefined] included. *)
Inductive Current : Type :=
  | CNull
  | CUndefined
  | CMusic (i : Instance).

Record SoundInterface : Type := {
  sounds : gmap string Instance;
  music : gmap string Instance;
  currentMusic : Current;
  pageIsVisible : bool;
  musicMuted : bool;
  soundsMuted : bool;
  allocated : positive;            (* identity of the next instance *)
}.

(** [this.music[key]] *)
Definition lookupMusic (this : SoundInterface) (k : string) : Current :=
  match music this !! k with
  | Some i => CMusic i
  | None => CUndefined
  end.

(** [a !== b] *)
Definition differs (a b : Current) : bool :=
  match a, b with
  | CNull, CNull | CUndefined, CUndefined => false
  | CMusic i, CMusic j => negb (bool_decide (id i = id j))
  | _, _ => true
  end.

(** [constructor(app, soundClass, musicClass)] *)
Definition constructor : SoundInterface :=
  {| sounds := ∅; music := ∅; currentMusic := CNull;
     pageIsVisible := true; musicMuted := false; soundsMuted := false;
     allocated := 1 |}.

(** One round of [for (const k in table) { const path = table[k];
    registry[path] = new cls(k, path); }]. *)
Fixpoint register (table : list (string * string)) (registry : gmap string Instance)
    (next : positive) : gmap string Instance * positive :=
  match table with
  | [] => (registry, next)
  | (k, path) :: rest =>
      register rest (<[path := {| id := next; key := k; url := path |}]> registry)
        (Pos.succ next)
  end.

Section Methods.
(** The build flag and [globalConfig.debug.disableMusic]. *)
Variable G_IS_DEV : bool.
Variable disableMusic : bool.

Definition initialize (this : SoundInterface) : SoundInterface :=
  let '(sounds', next) := register SOUNDS (sounds this) (allocated this) in
  let '(music', next') := register MUSIC (music this) next in
  {| sounds := sounds'; music := music'; currentMusic := currentMusic this;
     pageIsVisible := pageIsVisible this;
     musicMuted := if G_IS_DEV && disableMusic then true else false;
     soundsMuted := false;
     allocated := next' |}.

Definition loadSound (this : SoundInterface) (k : string) : list Event :=
  match sounds this !! k with
  | Some i => [Load i]
  | None =>
      match music this !! k with
      | Some i => [Load i]
      | None => [Logged LError ["Sound/Music by key not found:"; k]]
      end
  end.

Definition getMusicMuted (this : SoundInterface) : bool := musicMuted this.

Definition getSoundsMuted (this : SoundInterface) : bool := soundsMuted this.

Definition setMusicMuted (this : SoundInterface) (muted : bool) : SoundInterface * list Event :=
  let this' :=
    {| sounds := sounds this; music := music this; currentMusic := currentMusic this;
       pageIsVisible := pageIsVisible this; musicMuted := muted;
       soundsMuted := soundsMuted this; allocated := allocated this |} in
  (this',
   if musicMuted this' then
     match currentMusic this' with
     | CMusic i => [MusicStop i]
     | _ => []
     end
   else
     match currentMusic this' with
     | CMusic i => [MusicPlay i]
     | _ => []
     end).

Definition setSoundsMuted (this : SoundInterface) (muted : bool) : SoundInterface :=
  {| sounds := sounds this; music := music this; currentMusic := currentMusic this;
     pageIsVisible := pageIsVisible this; musicMuted := musicMuted this;
     soundsMuted := muted; allocated := allocated this |}.

(** [isPlaying] is the answer [this.currentMusic.isPlaying()] gives if it is
    asked. *)
Definition onPageRenderableStateChanged (this : SoundInterface) (visible : bool)
    (isPlaying : Instance → bool) : SoundInterface * list Event :=
  let this' :=
    {| sounds := sounds this; music := music this; currentMusic := currentMusic this;
       pageIsVisible := visible; musicMuted := musicMuted this;
       soundsMuted := soundsMuted this; allocated := allocated this |} in
  (this',
   match currentMusic this' with
   | CMusic i =>
       if visible then
         if negb (isPlaying i) && negb (musicMuted this') then [MusicPlay i] else []
       else [MusicStop i]
   | _ => []
   end).

Definition playUiSound (this : SoundInterface) (k : string) : list Event :=
  if soundsMuted this then []
  else match sounds this !! k with
       | None => [Logged LWarn ["Sound"; k; "not found, probably not loaded yet"]]
       | Some i => [SoundPlay i 1.0%float]
       end.

(** [playThemeMusic(key)]; [None] is [null], which as a property name reads
    "null". *)
Definition playThemeMusic (this : SoundInterface) (k : option string)
    : SoundInterface * list Event :=
  let found := lookupMusic this (default "null" k) in
  let warned :=
    match k, found with
    | Some name, CUndefined => [Logged LWarn ["Music"; name; "not found"]]
    | _, _ => []
    end in
  if differs (currentMusic this) found then
    let stopped :=
      match currentMusic this with
      | CMusic i => [Logged LLog ["Stopping"; key i]; MusicStop i]
      | _ => []
      end in
    let this' :=
      {| sounds := sounds this; music := music this; currentMusic := found;
         pageIsVisible := pageIsVisible this; musicMuted := musicMuted this;
         soundsMuted := soundsMuted this; allocated := allocated this |} in
    let started :=
      match found with
      | CMusic i =>
          if pageIsVisible this && negb (musicMuted this)
          then [Logged LLog ["Starting"; key i]; MusicPlay i]
          else []
      | _ => []
      end in
    (this', warned ++ stopped ++ started)
  else (this, warned).

(** ** Runs *)

Inductive Op : Type :=
  | Initialize
  | LoadSound (k : string)
  | SetMusicMuted (muted : bool)
  | SetSoundsMuted (muted : bool)
  | PageRenderableStateChanged (visible : bool) (isPlaying : Instance → bool)
  | PlayUiSound (k : string)
  | PlayThemeMusic (k : option string).

Definition step (this : SoundInterface) (op : Op) : SoundInterface * list Event :=
  match op with
  | Initialize => (initialize this, [])
  | LoadSound k => (this, loadSound this k)
  | SetMusicMuted muted => setMusicMuted this muted
  | SetSoundsMuted muted => (setSoundsMuted this muted, [])
  | PageRenderableStateChanged visible isPlaying =>
      onPageRenderableStateChanged this visible isPlaying
  | PlayUiSound k => (this, playUiSound this k)
  | PlayThemeMusic k => playThemeMusic this k
  end.

Fixpoint run (this : SoundInterface) (ops : list Op) : SoundInterface * list Event :=
  match ops with
  | [] => (this, [])
  | op :: rest =>
      let '(this', events) := step this op in
      let '(final, events') := run this' rest in
      (final, events ++ events')
  end.

End Methods.

End Sound.

(** * Upgrades of the hub (js/game/hub_goals.js)

    The counters of [HubGoals] and the methods that read and spend them.
    [UPGRADES] (js/game/upgrades.js) is data: per upgrade a list of tiers,
    each with the shapes it requires and the improvement it gives. The signal
    and the analytics call of a purchase are events of the run. *)
Module Hub.

Record Requirement : Type := {
  shape : string;
  amount : float;
}.

Record Tier : Type := {
  required : list Requirement;
  improvement : float;
}.

Record Upgrade : Type := {
  tiers : list Tier;
}.

(** The counters: [Object<string, number>] each, plain objects.  A map
    holds what [counter[name]] reads under the names the game uses, shape
    keys and upgrade identifiers, none of which names a member of
    [Object.prototype]. *)
Record HubGoals : Type := {
  gainedRewards : gmap string float;
  storedShapes : gmap string float;
  upgradeLevels : gmap string float;
  upgradeImprovements : gmap string float;
}.

Inductive Event : Type :=
  | UpgradePurchased (upgradeId : string)
  | HandleUpgradeUnlocked (upgradeId : string) (currentLevel : float).

(** [entry || 0] for an entry of a counter object. *)
Definition orZero (entry : option float) : float :=
  match entry with
  | Some n => if truthy (VNum n) then n else 0%float
  | None => 0%float
  end.

(** [entry - amount], [entry + amount] for an entry that may be missing:
    [undefined] converts to [NaN]. *)
Definition toNumber (entry : option float) : float := default PrimFloat.nan entry.

(** [array[index]] for a number [index]: the element whose position the
    number is. *)
Fixpoint elementAt {A} (position : nat) (array : list A) (index : float) : option A :=
  match array with
  | [] => None
  | element :: rest =>
      if PrimFloat.eqb (floatOfNat position) index then Some element
      else elementAt (S position) rest index
  end.

(** [for (...) { if ((this.storedShapes[requirement.shape] || 0) <
    requirement.amount) return false; } return true;] *)
Fixpoint allStored (stored : gmap string float) (requirements : list Requirement) : bool :=
  match requirements with
  | [] => true
  | requirement :: rest =>
      if PrimFloat.ltb (orZero (stored !! shape requirement)) (amount requirement) then false
      else allStored stored rest
  end.

(** [for (...) { this.storedShapes[requirement.shape] -= requirement.amount; }] *)
Fixpoint takeShapes (stored : gmap string float) (requirements : list Requirement)
    : gmap string float :=
  match requirements with
  | [] => stored
  | requirement :: rest =>
      takeShapes
        (<[shape requirement :=
             PrimFloat.sub (toNumber (stored !! shape requirement)) (amount requirement)]> stored)
        rest
  end.

Section Methods.
(** The build flag, [globalConfig.debug] and the upgrade table. *)
Variable G_IS_DEV : bool.
Variable allBuildingsUnlocked : bool.
Variable upgradesNoCost : bool.
Variable UPGRADES : gmap string Upgrade.

(** [getShapesStored(definition)], with [hash] for [definition.getHash()]. *)
Definition getShapesStored (this : HubGoals) (hash : string) : float :=
  orZero (storedShapes this !! hash).

Definition getUpgradeLevel (this : HubGoals) (upgradeId : string) : float :=
  orZero (upgradeLevels this !! upgradeId).

Definition isRewardUnlocked (this : HubGoals) (reward : string) : bool :=
  if G_IS_DEV && allBuildingsUnlocked then true
  else match gainedRewards this !! reward with
       | Some n => truthy (VNum n)
       | None => false
       end.

Definition canUnlockUpgrade (this : HubGoals) (upgradeId : string) : Outcome bool :=
  match UPGRADES !! upgradeId with
  | None => Thrown (TypeError "Cannot read properties of undefined")
  | Some handle =>
      let currentLevel := getUpgradeLevel this upgradeId in
      if PrimFloat.leb (floatOfNat (length (tiers handle))) currentLevel then Returned false
      else if G_IS_DEV && upgradesNoCost then Returned true
      else
        match elementAt 0 (tiers handle) currentLevel with
        | None => Thrown (TypeError "Cannot read properties of undefined")
        | Some tierData => Returned (allStored (storedShapes this) (required tierData))
        end
  end.

Definition tryUnlockUgprade (this : HubGoals) (upgradeId : string)
    : Outcome bool * HubGoals * list Event :=
  match canUnlockUpgrade this upgradeId with
  | Thrown e => (Thrown e, this, [])
  | Returned false => (Returned false, this, [])
  | Returned true =>
      match UPGRADES !! upgradeId with
      | None => (Thrown (TypeError "Cannot read properties of undefined"), this, [])
      | Some handle =>
          let currentLevel := getUpgradeLevel this upgradeId in
          match elementAt 0 (tiers handle) currentLevel with
          | None => (Returned false, this, [])
          | Some tierData =>
              let stored :=
                if G_IS_DEV && upgradesNoCost then storedShapes this
                else takeShapes (storedShapes this) (required tierData) in
              (Returned true,
               {| gainedRewards := gainedRewards this;
                  storedShapes := stored;
                  upgradeLevels :=
                    <[upgradeId := PrimFloat.add (orZero (upgradeLevels this !! upgradeId)) 1]>
                      (upgradeLevels this);
                  upgradeImprovements :=
                    <[upgradeId := PrimFloat.add (toNumber (upgradeImprovements this !! upgradeId))
                                     (improvement tierData)]>
                      (upgradeImprovements this) |},
               [UpgradePurchased upgradeId; HandleUpgradeUnlocked upgradeId currentLevel])
          end
      end
  end.

End Methods.

(** ** A table with one upgrade

    One tier, which takes fifty circles and adds a half to the speed. *)
Definition beltTier : Tier :=
  {| required := [{| shape := "CuCuCuCu"; amount := 50%float |}];
     improvement := 0.5%float |}.

Definition oneUpgrade : gmap string Upgrade := {[ "belt" := {| tiers := [beltTier] |} ]}.

Definition stocked (circles : float) : HubGoals :=
  {| gainedRewards := ∅;
     storedShapes := {[ "CuCuCuCu" := circles ]};
     upgradeLevels := ∅;
     upgradeImprovements := {[ "belt" := 1%float ]} |}.

End Hub.

(** * Properties *)

Example truthy_zero : truthy (VNum 0%float) = false.
Proof. reflexivity. Qed.

Example truthy_obj : truthy (VObj ∅) = true.
Proof. reflexivity. Qed.

(** ** Running computations *)

Ltac unfold_m :=
  unfold logError, recordCall, assert, tryCatch, mbind, M_bind, mret, M_ret, throw,
    getWorld, modifyWorld in *.

Lemma bind_returned {A B} (c : M A) (f : A → M B) w a w' :
  c w = (Returned a, w') → (c ≫= f) w = f a w'.
Proof. intros H. unfold_m. by rewrite H. Qed.

Lemma forIn_cons {A} key d rest (body : string → BaseDataType → M (option A)) w :
  forIn ((key, d) :: rest) body w =
  match body key d w with
  | (Returned None, w') => forIn rest body w'
  | (Returned (Some a), w') => (Returned (Some a), w')
  | (Thrown e, w') => (Thrown e, w')
  end.
Proof.
  simpl. unfold_m. destruct (body key d w) as [[[a|]|e] w']; reflexivity.
Qed.

Lemma forIn_app {A} pre rest (body : string → BaseDataType → M (option A)) w :
  forIn (pre ++ rest) body w =
  match forIn pre body w with
  | (Returned None, w') => forIn rest body w'
  | r => r
  end.
Proof.
  revert w. induction pre as [|[key d] pre IH]; intros w; [reflexivity|].
  rewrite <- app_comm_cons, !forIn_cons.
  destruct (body key d w) as [[[a|]|e] w']; auto.
Qed.

(** ** [verifySchema] is read-only *)

Lemma verifyField_frame schema data key d w :
  store (verifyField schema data key d w).2 = store w ∧
  ∃ added, calls (verifyField schema data key d w).2 = calls w ++ added ∧
           Forall (λ c, ∃ value, c = CallVerifySerializedValue key value) added.
Proof.
  unfold verifyField, hasOwnProperty, getProp, getOwnProperty. unfold_m.
  repeat (simpl; case_match); simplify_eq/=;
    (split; [done|]);
    first [ by exists []; rewrite app_nil_r
          | eexists [_]; split; [done|]; repeat constructor; eauto ].
Qed.

Lemma verifyFields_frame schema data s w :
  store (forIn s (verifyField schema data) w).2 = store w ∧
  ∃ added, calls (forIn s (verifyField schema data) w).2 = calls w ++ added ∧
           Forall (isVerifyCallOf s) added.
Proof.
  revert w. induction s as [|[key d] s IH]; intros w.
  - simpl. split; [done|]. exists []. by rewrite app_nil_r.
  - rewrite forIn_cons.
    destruct (verifyField_frame schema data key d w) as (Hst & added & Hc & Hall).
    assert (Forall (isVerifyCallOf ((key, d) :: s)) added) as Hall'.
    { eapply Forall_impl; [exact Hall|]. intros c [value ->].
      exists key, value, d. split; [done|]. left. }
    destruct (verifyField schema data key d w) as [[[a|]|e] w1]; simpl in *.
    + split; [done|]. eauto.
    + destruct (IH w1) as (Hst2 & added2 & Hc2 & Hall2).
      split; [congruence|]. exists (added ++ added2). split.
      * rewrite Hc2, Hc. by rewrite app_assoc.
      * apply Forall_app. split; [done|].
        eapply Forall_impl; [exact Hall2|]. intros c (k & v & d' & -> & Hin).
        exists k, v, d'. split; [done|]. by right.
    + split; [done|]. eauto.
Qed.

(** C6: [verifySchema] walks the schema calling no descriptor method other
    than [verifySerializedValue] (at most one call per visited field), and leaves the
    store — every live object, every schema object, the payload when it is a
    stored object, and both caches — exactly as it found it. *)
Theorem verifySchema_read_only (schema : loc) (data : Val) (w : World) :
  store (verifySchema schema data w).2 = store w ∧
  ∃ added, calls (verifySchema schema data w).2 = calls w ++ added ∧
           Forall (isVerifyCallOf (schemaAt w schema)) added.
Proof.
  unfold verifySchema. unfold_m.
  pose proof (verifyFields_frame schema data (schemaAt w schema) w) as H.
  destruct (forIn _ _ w) as [[r|e] w']; exact H.
Qed.

(** ** Property access on stored objects *)

Lemma ownProperty_readable objs v key :
  readable objs v ↔ ∃ o, ownProperty objs v key = Returned o.
Proof.
  destruct v; simpl; try (split; [eauto | done]); try (split; [done | by intros [? ?]]).
  destruct (objs !! l) as [o|]; split; eauto.
  - intros [? ?]; done.
  - intros [? ?]; done.
Qed.

Lemma answersOwnership_readable objs v : answersOwnership objs v → readable objs v.
Proof. intros H. apply (ownProperty_readable _ _ "hasOwnProperty"). by exists None. Qed.

Lemma hasOwnProperty_run v key w o :
  answersOwnership (objects (store w)) v →
  ownProperty (objects (store w)) v key = Returned o →
  hasOwnProperty v key w = (Returned (bool_decide (is_Some o)), w).
Proof.
  intros Hm H. unfold hasOwnProperty, getOwnProperty. unfold_m.
  rewrite Hm. simpl. by rewrite H.
Qed.

(** An own property named "hasOwnProperty" is found before the inherited
    method; calling it throws. *)
Lemma hasOwnProperty_shadowed v key w x :
  ownProperty (objects (store w)) v "hasOwnProperty" = Returned (Some x) →
  hasOwnProperty v key w = (Thrown (TypeError "hasOwnProperty is not a function"), w).
Proof.
  intros H. unfold hasOwnProperty, getOwnProperty. unfold_m. by rewrite H.
Qed.

Lemma hasOwnProperty_store v key w :
  (hasOwnProperty v key w).2 = w.
Proof.
  unfold hasOwnProperty, getOwnProperty. unfold_m.
  destruct (ownProperty _ v "hasOwnProperty") as [[x|]|e]; simpl; try done.
  by destruct (ownProperty _ v key).
Qed.

Lemma propertyOf_own st v key x :
  ownProperty (objects st) v key = Returned (Some x) → propertyOf st v key = x.
Proof. unfold propertyOf. by intros ->. Qed.

Lemma getProp_run v key w o :
  ownProperty (objects (store w)) v key = Returned o →
  getProp v key w = (Returned (propertyOf (store w) v key), w).
Proof.
  intros H. unfold getProp, getOwnProperty, propertyOf. unfold_m. rewrite H.
  by destruct o.
Qed.

Lemma getProp_own v key w x :
  ownProperty (objects (store w)) v key = Returned (Some x) →
  getProp v key w = (Returned x, w).
Proof. intros H. rewrite (getProp_run _ _ _ _ H). by rewrite (propertyOf_own _ _ _ _ H). Qed.

Lemma getProp_ref l o key w :
  objects (store w) !! l = Some o →
  getProp (VRef l) key w = (Returned (propertyOf (store w) (VRef l) key), w).
Proof. intros H. eapply getProp_run. simpl. by rewrite H. Qed.

Lemma writeOwn_lookup l key x objs l' :
  writeOwn l key x objs !! l' =
  if decide (l = l')
  then (λ o, {| constructorName := constructorName o; own := <[key := x]> (own o) |}) <$> objs !! l'
  else objs !! l'.
Proof.
  unfold writeOwn. case_decide as Hl.
  - subst. by rewrite lookup_alter_eq.
  - by rewrite lookup_alter_ne.
Qed.

Lemma ownProperty_writeOwn_ne l key x objs v key' :
  key' ≠ key →
  ownProperty (writeOwn l key x objs) v key' = ownProperty objs v key'.
Proof.
  intros Hne. destruct v; simpl; try done.
  rewrite writeOwn_lookup. case_decide; [|done].
  destruct (objs !! l0) as [o|]; simpl; [|done].
  by rewrite lookup_insert_ne.
Qed.

Lemma ownProperty_writeOwn_eq l o key x objs :
  objs !! l = Some o →
  ownProperty (writeOwn l key x objs) (VRef l) key = Returned (Some x).
Proof.
  intros H. simpl. rewrite writeOwn_lookup, decide_True by done.
  rewrite H. simpl. by rewrite lookup_insert_eq.
Qed.

Lemma readable_writeOwn l key x objs v :
  readable (writeOwn l key x objs) v ↔ readable objs v.
Proof.
  destruct v; simpl; try done.
  rewrite writeOwn_lookup. case_decide; [|done].
  by rewrite fmap_is_Some.
Qed.

(** ** One iteration of [deserializeSchema] *)

Lemma stepFrame_refl l keys w : stepFrame l keys w w.
Proof.
  split; eauto. exists []. by rewrite app_nil_r.
Qed.

Lemma stepFrame_same_store l keys w w' :
  store w' = store w →
  (∃ added, calls w' = calls w ++ added ∧ Forall (isDeserializeCallOf keys) added) →
  stepFrame l keys w w'.
Proof.
  intros Hst Hc. split; rewrite ?Hst; eauto.
Qed.

Lemma stepFrame_trans l keys w1 w2 w3 :
  stepFrame l keys w1 w2 → stepFrame l keys w2 w3 → stepFrame l keys w1 w3.
Proof.
  intros [Ho1 Hr1 Hk1 (a1 & Hc1 & Ha1)] [Ho2 Hr2 Hk2 (a2 & Hc2 & Ha2)]. split.
  - intros o Hl. destruct (Ho1 o Hl) as (o' & Hl' & Hn).
    destruct (Ho2 o' Hl') as (o'' & Hl'' & Hn'). exists o''. split; [done|congruence].
  - auto.
  - intros v key' Hk. rewrite Hk2, Hk1; auto.
  - exists (a1 ++ a2). split.
    + by rewrite Hc2, Hc1, app_assoc.
    + by apply Forall_app.
Qed.

Lemma stepFrame_mono l keys keys' w w' :
  keys ⊆ keys' → stepFrame l keys w w' → stepFrame l keys' w w'.
Proof.
  intros Hsub [Ho Hr Hk (a & Hc & Ha)]. split; auto.
  exists a. split; [done|]. eapply Forall_impl; [exact Ha|].
  intros c (k & v & -> & Hin). exists k, v. auto.
Qed.

Lemma stepFrame_assign l o key value live w :
  objects (store w) !! l = Some o →
  stepFrame l [key] w
    (setObjects (writeOwn l key live) (addCall (CallDeserializeWithVerify key value) w)).
Proof.
  intros Hl. split; simpl.
  - intros o' Hl'. rewrite writeOwn_lookup, decide_True by done. rewrite Hl'. simpl. eauto.
  - intros v. by rewrite readable_writeOwn.
  - intros v key' Hk. apply ownProperty_writeOwn_ne.
    by intros ->; apply Hk, list_elem_of_singleton.
  - eexists [_]. split; [done|]. repeat constructor. exists key, value. by split; [|apply list_elem_of_singleton].
Qed.

(** The live object is a stored object and the payload can be read: the
    iteration returns, and it either reports a (truthy) error and leaves the
    store alone, or continues having touched at most the field [key]. *)
Lemma deserializeField_spec l o schema data key d w ov :
  objects (store w) !! l = Some o →
  answersOwnership (objects (store w)) data →
  ownProperty (objects (store w)) data key = Returned ov →
  ∃ r w', deserializeField (VRef l) schema data key d w = (Returned r, w') ∧
    stepFrame l [key] w w' ∧
    answersOwnership (objects (store w')) data ∧
    (∀ e, r = Some e → truthy e = true ∧ store w' = store w) ∧
    (ov = None →
       r = Some (VStr ("Missing key in schema: " +:+ key +:+ " of class " +:+ constructorName o))
       ∧ calls w' = calls w) ∧
    (∀ value, ov = Some value → allowNull d = false → isNullish value = true →
       r = Some (VStr ("Non-nullable entry is null: " +:+ key +:+ " of class " +:+ constructorName o))
       ∧ calls w' = calls w).
Proof.
  intros Hl Hm Hov. unfold deserializeField.
  erewrite bind_returned by (by apply hasOwnProperty_run).
  destruct ov as [value|]; simpl.
  2:{ unfold_m. simpl. rewrite Hl. simpl. eexists _, _. split; [done|].
      split; [|split; [|split; [|split]]]; try done.
      - apply stepFrame_same_store; [done|]. exists []. by rewrite app_nil_r.
      - by intros e [= <-]. }
  rewrite ?bool_decide_eq_true_2 by eauto. simpl.
  erewrite bind_returned by (by eapply getProp_own). simpl.
  destruct (negb (allowNull d) && isNullish value) eqn:Hnull.
  { unfold_m. simpl. rewrite Hl. simpl. eexists _, _. split; [done|].
    split; [|split; [|split; [|split]]]; try done.
    - apply stepFrame_same_store; [done|]. exists []. by rewrite app_nil_r.
    - by intros e [= <-]. }
  erewrite bind_returned by (by eapply getProp_ref).
  unfold deserializeWithVerify. unfold_m. simpl.
  assert (∀ w1 e, store w1 = store w →
            calls w1 = calls w ++ [CallDeserializeWithVerify key value] →
            ∃ r w', (if truthyStatus (Some e)
                     then λ w2, match getProp (VRef l) "root" w2 with
                                | (Returned root, w3) =>
                                    (Returned (Some (statusVal (Some e))),
                                     addLog [LStr "serialization";
                                       LStr "Deserialization failed with error '";
                                       LVal (statusVal (Some e)); LStr "' on object";
                                       LVal (VRef l); LStr "and key"; LStr key;
                                       LStr "(root? =";
                                       LStr (if truthy root then "y" else "n"); LStr ")"] w3)
                                | (Thrown ex, w3) => (Thrown ex, w3)
                                end
                     else λ w2, (Returned None, w2)) w1 = (Returned r, w') ∧
              stepFrame l [key] w w' ∧
              answersOwnership (objects (store w')) data ∧
              (∀ e', r = Some e' → truthy e' = true ∧ store w' = store w)) as Hfail.
  { intros w1 e Hst Hc. destruct (truthyStatus (Some e)) eqn:Ht.
    - erewrite getProp_ref by (rewrite Hst; exact Hl). eexists _, _. split; [done|]. split.
      + apply stepFrame_same_store; [done|]. simpl. eexists [_]. split; [done|].
        repeat constructor. exists key, value. by split; [|apply list_elem_of_singleton].
      + simpl. rewrite Hst. split; [done|]. intros e' [= <-]. done.
    - eexists _, _. split; [done|]. rewrite Hst. split; [|done].
      apply stepFrame_same_store; [done|]. eexists [_]. split; [done|].
      repeat constructor. exists key, value. by split; [|apply list_elem_of_singleton]. }
  destruct (verifySerializedValue d value) as [e|] eqn:Hv.
  { destruct (Hfail (addCall (CallDeserializeWithVerify key value) w) e)
      as (r & w' & Hrun & Hf & Hm' & He); [done|done|].
    exists r, w'. split; [exact Hrun|]. split; [done|]. split; [done|]. split; [done|].
    split; [done|]. intros v [= ->] Hn Hi. rewrite Hn, Hi in Hnull. done. }
  destruct (deserialize d value _) as [e|live] eqn:Hd.
  { destruct (Hfail (addCall (CallDeserializeWithVerify key value) w) e)
      as (r & w' & Hrun & Hf & Hm' & He); [done|done|].
    exists r, w'. split; [exact Hrun|]. split; [done|]. split; [done|]. split; [done|].
    split; [done|]. intros v [= ->] Hn Hi. rewrite Hn, Hi in Hnull. done. }
  simpl. rewrite Hl. simpl. eexists _, _. split; [done|].
  split; [by eapply stepFrame_assign|]. split.
  { unfold answersOwnership. simpl. rewrite ownProperty_writeOwn_ne; [done|].
    intros <-. unfold answersOwnership in Hm. congruence. }
  split; [done|]. split; [done|].
  intros v [= ->] Hn Hi. rewrite Hn, Hi in Hnull. done.
Qed.

Lemma deserializeFields_spec l o schema data s w :
  objects (store w) !! l = Some o →
  answersOwnership (objects (store w)) data →
  ∃ r w', forIn s (deserializeField (VRef l) schema data) w = (Returned r, w') ∧
    stepFrame l (schemaKeys s) w w' ∧
    (∀ e, r = Some e → truthy e = true).
Proof.
  revert o w. induction s as [|[key d] s IH]; intros o w Hl Hm.
  - exists None, w. split; [done|]. split; [apply stepFrame_refl|done].
  - rewrite forIn_cons.
    pose proof (proj1 (ownProperty_readable _ _ key) (answersOwnership_readable _ _ Hm))
      as [ov Hov].
    destruct (deserializeField_spec l o schema data key d w ov Hl Hm Hov)
      as (r & w1 & -> & Hf & Hm1 & He & _).
    assert (stepFrame l (schemaKeys ((key, d) :: s)) w w1) as Hf'.
    { eapply stepFrame_mono; [|exact Hf].
      intros k ->%list_elem_of_singleton. simpl. left. }
    destruct r as [e|].
    + exists (Some e), w1. split; [done|]. split; [done|].
      intros e' [= <-]. by apply (He e).
    + destruct (frame_obj _ _ _ _ Hf o Hl) as (o' & Hl' & _).
      destruct (IH o' w1 Hl' Hm1) as (r & w2 & -> & Hf2 & He2).
      exists r, w2. split; [done|]. split; [|done].
      eapply stepFrame_trans; [exact Hf'|].
      eapply stepFrame_mono; [|exact Hf2]. by apply list_subseteq_cons.
Qed.

Lemma deserializeField_error_frame obj schema data key d w e w' :
  deserializeField obj schema data key d w = (Returned (Some e), w') →
  store w' = store w.
Proof.
  unfold deserializeField, deserializeWithVerify, hasOwnProperty, getProp,
    getOwnProperty, constructorNameOf, setProp, truthyStatus.
  unfold_m. intros H.
  repeat (simpl in *; case_match; simplify_eq/=); done.
Qed.

(** A field whose descriptor reports nothing is assigned the converted
    value. *)
Lemma deserializeField_assigns l o schema data key d w value live :
  objects (store w) !! l = Some o →
  answersOwnership (objects (store w)) data →
  ownProperty (objects (store w)) data key = Returned (Some value) →
  negb (allowNull d) && isNullish value = false →
  verifySerializedValue d value = None →
  deserialize d value (propertyOf (store w) (VRef l) "root") = inr live →
  deserializeField (VRef l) schema data key d w =
    (Returned None,
     setObjects (writeOwn l key live) (addCall (CallDeserializeWithVerify key value) w)).
Proof.
  intros Hl Hm Hov Hnull Hv Hd. unfold deserializeField.
  erewrite bind_returned by (by eapply hasOwnProperty_run). simpl.
  erewrite bind_returned by (by eapply getProp_own). simpl. rewrite Hnull.
  erewrite bind_returned by (by eapply getProp_ref).
  unfold deserializeWithVerify. unfold_m. simpl. rewrite Hv, Hd. simpl. by rewrite Hl.
Qed.
(** ** [deserializeSchema] *)

(** C9: with no inherited error, a falsy payload — [undefined], [null],
    [false], [0], [NaN] or the empty string — makes [deserializeSchema] return
    "Got null data" whatever the schema is, the empty schema included: no
    field is examined, no descriptor is called and the store is untouched. *)
Theorem deserializeSchema_falsy_data (obj : Val) (schema : loc) (data : Val)
    (baseclassErrorResult : Val) (w : World) :
  truthy baseclassErrorResult = false →
  truthy data = false →
  deserializeSchema obj schema data baseclassErrorResult w =
    (Returned (VStr "Got null data"),
     addLog [LStr "Got 'NULL' data for"; LVal obj; LStr "and schema";
             LSchema schema; LStr "!"] w).
Proof.
  intros Hb Hd. unfold deserializeSchema. by rewrite Hb, Hd.
Qed.


(** The walk stops at the first iteration that reports an error, with the
    store as the earlier iterations left it. *)
Lemma deserializeSchema_halts (obj : Val) (schema : loc)
    (data baseclassErrorResult : Val) (w w1 w2 : World)
    (pre post : Schema) (key : string) (d : BaseDataType) (e : Val) :
  truthy baseclassErrorResult = false →
  truthy data = true →
  schemaAt w schema = pre ++ (key, d) :: post →
  forIn pre (deserializeField obj schema data) w = (Returned None, w1) →
  deserializeField obj schema data key d w1 = (Returned (Some e), w2) →
  deserializeSchema obj schema data baseclassErrorResult w = (Returned e, w2) ∧
  store w2 = store w1 ∧
  (∀ k v, k ∈ schemaKeys pre →
     ownProperty (objects (store w1)) obj k = Returned (Some v) →
     ownProperty (objects (store w2)) obj k = Returned (Some v)).
Proof.
  intros Hb Hd Hs Hpre Hstep.
  pose proof (deserializeField_error_frame _ _ _ _ _ _ _ _ Hstep) as Hst.
  split; [|split; [done|by rewrite Hst]].
  unfold deserializeSchema. rewrite Hb, Hd. simpl. unfold_m.
  by rewrite Hs, forIn_app, Hpre, forIn_cons, Hstep.
Qed.

Lemma deserializeField_fails l o schema data key d w raw err :
  objects (store w) !! l = Some o →
  answersOwnership (objects (store w)) data →
  ownProperty (objects (store w)) data key = Returned (Some raw) →
  negb (allowNull d) && isNullish raw = false →
  err ≠ "" →
  verifySerializedValue d raw = Some err ∨
    (verifySerializedValue d raw = None ∧ ∀ root, deserialize d raw root = inl err) →
  ∃ w', deserializeField (VRef l) schema data key d w = (Returned (Some (VStr err)), w') ∧
        calls w' = calls w ++ [CallDeserializeWithVerify key raw].
Proof.
  intros Hl Hm Hraw Hnull Herr Hfail.
  assert (truthyStatus (Some err) = true) as Htruthy.
  { unfold truthyStatus. simpl. destruct err; [done|reflexivity]. }
  unfold deserializeField.
  erewrite bind_returned by (by eapply hasOwnProperty_run). simpl.
  erewrite bind_returned by (by eapply getProp_own). simpl. rewrite Hnull.
  erewrite bind_returned by (by eapply getProp_ref).
  unfold deserializeWithVerify. unfold_m. simpl.
  destruct Hfail as [Hv|[Hv Hd]].
  - rewrite Hv, Htruthy. erewrite getProp_ref by exact Hl.
    eexists. split; done.
  - rewrite Hv, Hd, Htruthy. erewrite getProp_ref by exact Hl.
    eexists. split; done.
Qed.

(** Fields whose data deserializes are all assigned, each the value its
    descriptor converted. *)
Lemma deserializeFields_assign l schema data pre : ∀ w o,
  objects (store w) !! l = Some o →
  answersOwnership (objects (store w)) data →
  NoDup (schemaKeys pre) →
  (∀ k dk, (k, dk) ∈ pre → deserializes dk (ownProperty (objects (store w)) data k)) →
  ∃ w1, forIn pre (deserializeField (VRef l) schema data) w = (Returned None, w1) ∧
    stepFrame l (schemaKeys pre) w w1 ∧
    answersOwnership (objects (store w1)) data ∧
    (∀ k dk, (k, dk) ∈ pre → ∃ raw root live,
       ownProperty (objects (store w)) data k = Returned (Some raw) ∧
       deserialize dk raw root = inr live ∧
       ownProperty (objects (store w1)) (VRef l) k = Returned (Some live)).
Proof.
  induction pre as [|[key d] pre IH]; intros w o Hl Hm Hnd Hok.
  - exists w. split; [done|]. split; [apply stepFrame_refl|]. split; [done|].
    intros k dk Hin. by apply not_elem_of_nil in Hin.
  - simpl in Hnd. apply NoDup_cons in Hnd as [Hkey Hnd].
    destruct (Hok key d) as (raw & Hraw & Hnull & Hv & Hconv); [left|].
    destruct (Hconv (propertyOf (store w) (VRef l) "root")) as [live Hlive].
    rewrite forIn_cons.
    erewrite deserializeField_assigns by done.
    set (w' := setObjects _ _).
    assert (stepFrame l (schemaKeys ((key, d) :: pre)) w w') as Hf.
    { eapply stepFrame_mono; [|by eapply stepFrame_assign].
      intros k ->%list_elem_of_singleton. left. }
    destruct (frame_obj _ _ _ _ Hf o Hl) as (o' & Hl' & _).
    assert (∀ x k, k ≠ key →
              ownProperty (objects (store w')) x k = ownProperty (objects (store w)) x k)
      as Hother.
    { intros x k Hne. subst w'. simpl. by apply ownProperty_writeOwn_ne. }
    assert (∀ k dk, (k, dk) ∈ pre → k ≠ key) as Hdiff.
    { intros k dk Hin ->. apply Hkey. by apply (list_elem_of_fmap_2 fst) in Hin. }
    assert (answersOwnership (objects (store w')) data) as Hm'.
    { unfold answersOwnership. rewrite Hother; [done|].
      intros <-. unfold answersOwnership in Hm. congruence. }
    destruct (IH w' o' Hl' Hm' Hnd) as (w1 & -> & Hf1 & Hm1 & Hassigned).
    { intros k dk Hin. rewrite Hother by eauto. apply Hok. by right. }
    exists w1. split; [done|]. split; [|split; [done|]].
    + eapply stepFrame_trans; [exact Hf|].
      eapply stepFrame_mono; [|exact Hf1]. by apply list_subseteq_cons.
    + intros k dk Hin. apply elem_of_cons in Hin as [[= -> ->]|Hin].
      * exists raw, (propertyOf (store w) (VRef l) "root"), live.
        split; [done|]. split; [done|].
        rewrite (frame_other _ _ _ _ Hf1) by done.
        subst w'. simpl. by eapply ownProperty_writeOwn_eq.
      * destruct (Hassigned k dk Hin) as (raw' & root' & live' & Hraw' & Hlive' & Hown').
        exists raw', root', live'. split; [|done]. rewrite <- Hother by eauto. done.
Qed.

(** C7: the payload can be asked [hasOwnProperty] (it has no property of
    its own by that name) and deserializes for the fields declared before
    [key], and the descriptor of [key] reports an error: [deserializeSchema]
    returns that error, having called no descriptor of a later field, and
    every earlier field holds the value that was assigned to it (nothing is
    rolled back). *)
Theorem deserializeSchema_no_rollback (l : loc) (o : JsObject) (schema : loc)
    (data baseclassErrorResult : Val) (w : World)
    (pre post : Schema) (key : string) (d : BaseDataType) (err : string) :
  truthy baseclassErrorResult = false →
  truthy data = true →
  objects (store w) !! l = Some o →
  schemaAt w schema = pre ++ (key, d) :: post →
  NoDup (key :: schemaKeys pre) →
  answersOwnership (objects (store w)) data →
  (∀ k dk, (k, dk) ∈ pre → deserializes dk (ownProperty (objects (store w)) data k)) →
  descriptorFails d (ownProperty (objects (store w)) data key) err →
  ∃ w2, deserializeSchema (VRef l) schema data baseclassErrorResult w =
          (Returned (VStr err), w2) ∧
    (∀ k dk, (k, dk) ∈ pre → ∃ raw root live,
       ownProperty (objects (store w)) data k = Returned (Some raw) ∧
       deserialize dk raw root = inr live ∧
       ownProperty (objects (store w2)) (VRef l) k = Returned (Some live)) ∧
    (∃ added, calls w2 = calls w ++ added ∧
              Forall (isDeserializeCallOf (key :: schemaKeys pre)) added).
Proof.
  intros Hb Hd Hl Hs Hnd Hm Hok Hfail. apply NoDup_cons in Hnd as [Hkey Hnd].
  destruct (deserializeFields_assign l schema data pre w o Hl Hm Hnd Hok)
    as (w1 & Hpre & Hf & Hm1 & Hassigned).
  destruct (frame_obj _ _ _ _ Hf o Hl) as (o' & Hl' & _).
  destruct Hfail as (raw & Hraw & Hnull & Herr & Hfail).
  rewrite <- (frame_other _ _ _ _ Hf data key Hkey) in Hraw.
  destruct (deserializeField_fails l o' schema data key d w1 raw err Hl' Hm1 Hraw Hnull Herr Hfail)
    as (w2 & Hstep & Hc2).
  destruct (deserializeSchema_halts (VRef l) schema data baseclassErrorResult w w1 w2
              pre post key d (VStr err) Hb Hd Hs Hpre Hstep) as (Hrun & Hst & _).
  exists w2. split; [exact Hrun|]. split.
  - intros k dk Hin.
    destruct (Hassigned k dk Hin) as (raw' & root & live & Hraw' & Hlive & Hown).
    exists raw', root, live. by rewrite Hst.
  - destruct (frame_calls _ _ _ _ Hf) as (added & Hc & Hall).
    eexists. split; [by rewrite Hc2, Hc, <- app_assoc|].
    apply Forall_app. split.
    + eapply Forall_impl; [exact Hall|]. intros c (k & v & -> & Hin).
      exists k, v. split; [done|by right].
    + repeat constructor. eexists key, _. split; [done|left].
Qed.

(** ** [serializeSchema] *)

Lemma filter_ext_in {A} (P Q : A → Prop) `{∀ x, Decision (P x)} `{∀ x, Decision (Q x)}
    (l : list A) :
  (∀ x, x ∈ l → P x ↔ Q x) → filter P l = filter Q l.
Proof.
  induction l as [|x l IH]; intros Hl; [done|].
  rewrite !filter_cons. rewrite IH by (intros y Hy; apply Hl; by right).
  destruct (decide (P x)) as [HP|HP], (decide (Q x)) as [HQ|HQ]; try done.
  - exfalso. apply HQ, Hl; [left|done].
  - exfalso. apply HP, Hl; [left|done].
Qed.

Lemma writeOwn_insert m o key x objs :
  objs !! m = Some o →
  writeOwn m key x objs =
  <[m := {| constructorName := constructorName o; own := <[key := x]> (own o) |}]> objs.
Proof.
  intros Hm. apply map_eq. intros l. rewrite writeOwn_lookup.
  destruct (decide (m = l)) as [<-|Hne].
  - by rewrite Hm, lookup_insert_eq.
  - by rewrite lookup_insert_ne.
Qed.

Lemma prototypeOf_writeOwn l key x objs v :
  prototypeOf (writeOwn l key x objs) v = prototypeOf objs v.
Proof.
  destruct v; simpl; try done.
  rewrite writeOwn_lookup. case_decide; [|done].
  by destruct (objs !! l0).
Qed.

(** A write under one name leaves what is read under the other names. *)
Lemma propertyOf_writeOwn_ne l key x w v key' :
  key' ≠ key →
  propertyOf (store (setObjects (writeOwn l key x) w)) v key' = propertyOf (store w) v key'.
Proof.
  intros Hne. unfold propertyOf, inheritedProperty. simpl.
  by rewrite ownProperty_writeOwn_ne, prototypeOf_writeOwn.
Qed.

(** One iteration of [serializeSchema] on an object that can be asked
    [hasOwnProperty] and whose field the descriptor serializes: it writes the
    result into the target; a field the object lacks is logged and, in a
    production build, read through the prototype chain. *)
Lemma serializeField_step (G_IS_DEV : bool) obj schema m o key d w ov raw :
  objects (store w) !! m = Some o →
  answersOwnership (objects (store w)) obj →
  ownProperty (objects (store w)) obj key = Returned ov →
  (G_IS_DEV = true → is_Some ov) →
  serialize d (propertyOf (store w) obj key) = Returned raw →
  ∃ w0, store w0 = store w ∧ calls w0 = calls w ∧
    console w0 = console w ++
      (if lacksOwn (objects (store w)) obj key then [missingFieldLog obj schema key] else []) ∧
    serializeField G_IS_DEV obj schema (VRef m) key d w =
      (Returned None,
       setObjects (writeOwn m key raw)
         (addCall (CallSerialize key (propertyOf (store w) obj key)) w0)).
Proof.
  intros Hm Hobj Hov Hdev Hraw. unfold serializeField.
  erewrite bind_returned by (by eapply hasOwnProperty_run).
  assert (∀ w0, store w0 = store w →
            (getProp obj key ≫= λ value,
               recordCall (CallSerialize key value) ≫= λ _,
               evaluate (serialize d value) ≫= λ raw,
               setProp (VRef m) key raw) w0 =
            (Returned tt,
             setObjects (writeOwn m key raw)
               (addCall (CallSerialize key (propertyOf (store w) obj key)) w0))) as Hassign.
  { intros w0 Hst. erewrite bind_returned by (eapply getProp_run; rewrite Hst; exact Hov).
    rewrite Hst. unfold evaluate. unfold_m. simpl. rewrite Hraw. simpl. by rewrite Hst, Hm. }
  destruct ov as [v|]; simpl.
  - rewrite ?bool_decide_eq_true_2 by eauto. simpl. exists w. split; [done|]. split; [done|].
    split; [unfold lacksOwn; by rewrite Hov, app_nil_r|].
    unfold_m. simpl in *. destruct G_IS_DEV; by rewrite (Hassign w).
  - rewrite ?bool_decide_eq_false_2 by (by intros [? ?]). simpl.
    destruct G_IS_DEV; [by destruct (Hdev eq_refl)|].
    exists (addLog [LStr "Invalid schema, property"; LStr key; LStr "does not exist on";
                    LVal obj; LStr "(schema="; LSchema schema; LStr ")"] w).
    split; [done|]. split; [done|].
    split; [unfold lacksOwn; by rewrite Hov|].
    unfold_m. simpl in *. by rewrite Hassign.
Qed.

(** The walk of [serializeSchema] over fields whose values the descriptors
    serialize. *)
Lemma serializeFields_frame (G_IS_DEV : bool) obj schema m s : ∀ w o,
  objects (store w) !! m = Some o →
  answersOwnership (objects (store w)) obj →
  (obj = VRef m → "hasOwnProperty" ∉ schemaKeys s) →
  NoDup (schemaKeys s) →
  (G_IS_DEV = true → ∀ key, key ∈ schemaKeys s →
     ∃ v, ownProperty (objects (store w)) obj key = Returned (Some v)) →
  (∀ key d, (key, d) ∈ s →
     ∃ raw, serialize d (propertyOf (store w) obj key) = Returned raw) →
  ∃ w' o', forIn s (serializeField G_IS_DEV obj schema (VRef m)) w = (Returned None, w') ∧
    objects (store w') = <[m := o']> (objects (store w)) ∧
    constructorName o' = constructorName o ∧
    dom (own o') = dom (own o) ∪ list_to_set (schemaKeys s) ∧
    (∀ key, key ∉ schemaKeys s → own o' !! key = own o !! key) ∧
    (∀ key d, (key, d) ∈ s →
       ∃ raw, serialize d (propertyOf (store w) obj key) = Returned raw ∧
              own o' !! key = Some raw) ∧
    schemas (store w') = schemas (store w) ∧
    globalSchemaCache (store w') = globalSchemaCache (store w) ∧
    classnamesCache (store w') = classnamesCache (store w) ∧
    prototypes (store w') = prototypes (store w) ∧
    answersOwnership (objects (store w')) obj ∧
    console w' = console w ++
      (missingFieldLog obj schema <$>
         filter (λ key, lacksOwn (objects (store w)) obj key = true) (schemaKeys s)) ∧
    calls w' = calls w ++
      ((λ kd, CallSerialize kd.1 (propertyOf (store w) obj kd.1)) <$> s).
Proof.
  induction s as [|[key d] s IH]; intros w o Hm Hobj Halias Hnd Hdev Hser.
  - exists w, o. split; [done|]. rewrite insert_id by done. simpl.
    rewrite !app_nil_r. repeat split; try done.
    + by rewrite union_empty_r_L.
    + intros key d Hin. by apply not_elem_of_nil in Hin.
  - simpl in Hnd. apply NoDup_cons in Hnd as [Hkey Hnd].
    pose proof (proj1 (ownProperty_readable _ _ key) (answersOwnership_readable _ _ Hobj))
      as [ov Hov].
    destruct (Hser key d) as [raw Hraw]; [left|].
    destruct (serializeField_step G_IS_DEV obj schema m o key d w ov raw Hm Hobj Hov)
      as (w0 & Hst0 & Hc0 & Hlog0 & Hstep); [|done|].
    { intros Hd. destruct (Hdev Hd key) as [v Hv]; [left|]. rewrite Hv in Hov.
      injection Hov as <-. eauto. }
    rewrite forIn_cons, Hstep.
    set (w1 := setObjects _ _).
    set (o1 := {| constructorName := constructorName o; own := <[key := raw]> (own o) |}).
    assert (objects (store w1) = <[m := o1]> (objects (store w))) as Hobj1.
    { subst w1. simpl. rewrite Hst0. by apply writeOwn_insert. }
    assert (∀ y key', key' ≠ key →
              ownProperty (objects (store w1)) y key' = ownProperty (objects (store w)) y key')
      as Hother.
    { intros y key' Hne. subst w1. simpl. rewrite Hst0. by apply ownProperty_writeOwn_ne. }
    assert (∀ y key', key' ≠ key →
              propertyOf (store w1) y key' = propertyOf (store w) y key') as Hread.
    { intros y key' Hne. subst w1.
      rewrite (propertyOf_writeOwn_ne m key raw _ y key' Hne). simpl. by rewrite Hst0. }
    assert (∀ key' d', (key', d') ∈ s → key' ≠ key) as Hdiff.
    { intros key' d' Hin ->. apply Hkey. by apply (list_elem_of_fmap_2 fst) in Hin. }
    assert (answersOwnership (objects (store w1)) obj) as Hobj'.
    { unfold answersOwnership.
      destruct obj as [| | | | | | |l0]; try done.
      destruct (decide (l0 = m)) as [->|Hne].
      - rewrite Hother; [done|]. intros <-. apply (Halias eq_refl). left.
      - clear Hother Hread. subst w1. unfold answersOwnership in Hobj. simpl in *.
        rewrite Hst0, writeOwn_lookup. case_decide; [congruence|done]. }
    destruct (IH w1 o1)
      as (w' & o' & -> & Hobjs & Hname & Hdom & Hrest & Hbound & Hs & Hg & Hcn & Hp & Hans &
          Hlog & Hcalls).
    { rewrite Hobj1. by rewrite lookup_insert_eq. }
    { done. }
    { intros Heq Hin. apply (Halias Heq). by right. }
    { done. }
    { intros Hd key' Hin. rewrite Hother; [apply (Hdev Hd); by right|].
      intros ->. by apply Hkey. }
    { intros key' d' Hin. rewrite Hread by eauto. apply Hser. by right. }
    exists w', o'. split; [done|]. split.
    { rewrite Hobjs, Hobj1. by rewrite insert_insert_eq. }
    split; [done|]. split.
    { rewrite Hdom. subst o1. simpl. rewrite dom_insert_L.
      rewrite (comm_L (∪) {[key]}). by rewrite <- (assoc_L (∪)). }
    split.
    { intros key' [Hne Hnin]%not_elem_of_cons. rewrite Hrest by done.
      subst o1. simpl. by rewrite lookup_insert_ne. }
    split.
    { intros key' d' Hin. apply elem_of_cons in Hin as [[= -> ->]|Hin].
      - exists raw. split; [done|]. rewrite Hrest by done. subst o1. simpl.
        by rewrite lookup_insert_eq.
      - destruct (Hbound key' d' Hin) as (raw' & Hraw' & Hown').
        exists raw'. split; [|done]. rewrite <- Hread by eauto. done. }
    split; [by rewrite Hs; subst w1; simpl; rewrite Hst0|].
    split; [by rewrite Hg; subst w1; simpl; rewrite Hst0|].
    split; [by rewrite Hcn; subst w1; simpl; rewrite Hst0|].
    split; [by rewrite Hp; subst w1; simpl; rewrite Hst0|].
    split; [done|].
    split.
    { rewrite Hlog. subst w1. simpl. rewrite Hlog0, <- app_assoc. f_equal.
      assert (filter (λ key0, lacksOwn (objects (store w)) obj key0 = true) (schemaKeys s) =
              filter (λ key0, lacksOwn
                        (writeOwn m key raw (objects (store w0))) obj key0 = true)
                     (schemaKeys s)) as <-.
      { apply filter_ext_in. intros k Hk. unfold lacksOwn.
        rewrite Hst0, ownProperty_writeOwn_ne; [done|]. intros ->. by apply Hkey. }
      rewrite filter_cons. destruct (lacksOwn (objects (store w)) obj key) eqn:Hlacks.
      - by rewrite decide_True by done.
      - by rewrite decide_False by done. }
    rewrite Hcalls. subst w1. simpl. rewrite Hc0, <- app_assoc. simpl.
    do 2 f_equal. apply list_fmap_ext. intros i [k' d'] Hi. simpl.
    f_equal. apply list_elem_of_lookup_2 in Hi.
    rewrite <- (Hread obj k') by eauto. done.
Qed.

(** C4: the object can be asked [hasOwnProperty] (it has no property of its
    own by that name), owns a field for every key of the schema, and each
    descriptor's [serialize] returns on its field: [serializeSchema] returns
    the very [mergeWith] object it was given; there each schema key is bound
    to its descriptor's [serialize] of the object's field, and the properties
    under any other key are what they were before the call. *)
Theorem serializeSchema_merges (G_IS_DEV : bool) (obj : Val) (schema m : loc)
    (o : JsObject) (w : World) :
  objects (store w) !! m = Some o →
  NoDup (schemaKeys (schemaAt w schema)) →
  answersOwnership (objects (store w)) obj →
  (∀ key d, (key, d) ∈ schemaAt w schema →
     ∃ v raw, ownProperty (objects (store w)) obj key = Returned (Some v) ∧
              serialize d v = Returned raw) →
  ∃ w', serializeSchema G_IS_DEV obj schema (VRef m) w = (Returned (VRef m), w') ∧
    (∀ key d, (key, d) ∈ schemaAt w schema →
       ∃ v raw, ownProperty (objects (store w)) obj key = Returned (Some v) ∧
                serialize d v = Returned raw ∧
                ownProperty (objects (store w')) (VRef m) key = Returned (Some raw)) ∧
    (∀ key, key ∉ schemaKeys (schemaAt w schema) →
       ownProperty (objects (store w')) (VRef m) key =
       ownProperty (objects (store w)) (VRef m) key).
Proof.
  intros Hm Hnd Hobj Hown.
  assert (∀ key, key ∈ schemaKeys (schemaAt w schema) →
            ∃ v, ownProperty (objects (store w)) obj key = Returned (Some v)) as Howns.
  { intros key Hin. apply list_elem_of_fmap in Hin as ([k d] & -> & Hin).
    destruct (Hown k d Hin) as (v & raw & Hv & _). eauto. }
  destruct (serializeFields_frame G_IS_DEV obj schema m (schemaAt w schema) w o Hm Hobj)
    as (w' & o' & Hrun & Hobjs & _ & _ & Hrest & Hbound & _); [| done | done | |].
  { intros _ Hin. destruct (Howns _ Hin) as [v Hv].
    unfold answersOwnership in Hobj. congruence. }
  { intros key d Hin. destruct (Hown key d Hin) as (v & raw & Hv & Hraw).
    exists raw. by rewrite (propertyOf_own _ _ _ _ Hv). }
  exists w'. split; [|split].
  - unfold serializeSchema. unfold_m. simpl. by rewrite Hrun.
  - intros key d Hin. destruct (Hown key d Hin) as (v & raw & Hv & Hraw).
    destruct (Hbound key d Hin) as (raw' & Hraw' & Hown').
    rewrite (propertyOf_own _ _ _ _ Hv), Hraw in Hraw'. injection Hraw' as <-.
    exists v, raw. split; [done|]. split; [done|].
    simpl. by rewrite Hobjs, lookup_insert_eq, Hown'.
  - intros key Hnin. simpl. by rewrite Hobjs, lookup_insert_eq, Hm, (Hrest key Hnin).
Qed.
(** ** [extendSchema] *)











(** ** [getCachedSchema] *)

Lemma getCachedSchema_hit (G_IS_DEV : bool) (this : SerializableClass) (w : World) entry :
  globalSchemaCache (store w) !! getId this = Some entry →
  classnamesCache (store w) !! getId this = Some (cls this) →
  getCachedSchema G_IS_DEV this w = (Returned entry, w).
Proof.
  intros Hentry Hcls. unfold getCachedSchema. unfold_m.
  destruct G_IS_DEV; simpl.
  - rewrite Hcls, bool_decide_eq_true_2 by done. simpl. rewrite Hentry.
    f_equal. destruct w as [[? ? ? ? ?] ? ?]; simpl in *.
    unfold setClassnamesCache. simpl. by rewrite insert_id.
  - by rewrite Hentry.
Qed.

(** C2: a class under whose identifier the caches answer nothing yet — the
    schema cache reads no entry there, which excludes the identifiers naming a
    member of [Object.prototype], and in development builds no other class is
    registered under it. The first call of [getCachedSchema] runs the class's
    [getSchema], keeps the schema store exactly as [getSchema] left it, and
    records the returned schema under the identifier, all other entries being
    as before; the second call returns that same schema object, runs nothing
    and changes nothing. Over the two calls [getSchema] runs exactly once. *)
Theorem getCachedSchema_once (G_IS_DEV : bool) (this : SerializableClass) (w : World) :
  globalSchemaCache (store w) !! getId this = None →
  (G_IS_DEV = true →
   ∀ c, classnamesCache (store w) !! getId this = Some c → c = cls this) →
  ∃ schema w1 w2,
    getCachedSchema G_IS_DEV this w = (Returned schema, w1) ∧
    getCachedSchema G_IS_DEV this w1 = (Returned schema, w2) ∧
    schema = (getSchema this (schemas (store w))).1 ∧
    schemas (store w1) = (getSchema this (schemas (store w))).2 ∧
    globalSchemaCache (store w1) = <[getId this := schema]> (globalSchemaCache (store w)) ∧
    objects (store w1) = objects (store w) ∧
    store w2 = store w1 ∧
    calls w1 = calls w ++ [CallGetSchema (cls this)] ∧
    calls w2 = calls w1.
Proof.
  intros Hmiss Hdev.
  destruct (getSchema this (schemas (store w))) as [schema schemas'] eqn:Hget.
  destruct G_IS_DEV.
  - assert (getCachedSchema true this w =
            (Returned schema,
             setGlobalSchemaCache <[getId this := schema]>
               (setSchemas (λ _, schemas')
                  (addCall (CallGetSchema (cls this))
                     (setClassnamesCache <[getId this := cls this]> w))))) as Hfirst.
    { unfold getCachedSchema. unfold_m. simpl.
      assert (bool_decide (classnamesCache (store w) !! getId this = Some (cls this))
              || bool_decide (classnamesCache (store w) !! getId this = None) = true) as ->.
      { destruct (classnamesCache (store w) !! getId this) as [c|] eqn:Hc.
        - rewrite (Hdev eq_refl c eq_refl). by rewrite bool_decide_eq_true_2.
        - rewrite (bool_decide_eq_true_2 (None = None)) by done. apply orb_true_r. }
      simpl. rewrite Hmiss. simpl. by rewrite Hget. }
    eexists _, _, _. split; [exact Hfirst|]. split.
    + apply getCachedSchema_hit; simpl; apply lookup_insert_eq.
    + simpl. done.
  - assert (getCachedSchema false this w =
            (Returned schema,
             setGlobalSchemaCache <[getId this := schema]>
               (setSchemas (λ _, schemas')
                  (addCall (CallGetSchema (cls this)) w)))) as Hfirst.
    { unfold getCachedSchema. unfold_m. simpl. rewrite Hmiss. simpl. by rewrite Hget. }
    eexists _, _, _. split; [exact Hfirst|]. split.
    + unfold getCachedSchema. unfold_m. simpl. by rewrite lookup_insert_eq.
    + simpl. done.
Qed.
(** ** Absent payloads *)

Lemma verifyField_returns schema data key d w :
  answersOwnership (objects (store w)) data →
  ∃ r, (verifyField schema data key d w).1 = Returned r.
Proof.
  intros Hm.
  pose proof (proj1 (ownProperty_readable _ _ key) (answersOwnership_readable _ _ Hm))
    as [ov Hov].
  unfold verifyField.
  erewrite bind_returned by (by apply hasOwnProperty_run).
  destruct ov as [value|]; simpl; [|unfold_m; eauto].
  erewrite bind_returned by (by eapply getProp_own). simpl.
  unfold_m. repeat case_match; simpl; eauto.
Qed.

(** With a payload that can be asked [hasOwnProperty], [verifySchema]
    returns. *)
Lemma verifySchema_returns schema data w :
  answersOwnership (objects (store w)) data →
  ∃ r, (verifySchema schema data w).1 = Returned r.
Proof.
  intros Hr. unfold verifySchema. unfold_m.
  assert (∃ r, (forIn (schemaAt w schema) (verifyField schema data) w).1 = Returned r) as [r Hrun].
  { generalize (schemaAt w schema). intros s. revert w Hr.
    induction s as [|[key d] s IH]; intros w Hr; [simpl; eauto|].
    rewrite forIn_cons.
    destruct (verifyField_returns schema data key d w Hr) as [r Hrun].
    pose proof (proj1 (verifyField_frame schema data key d w)) as Hst.
    destruct (verifyField schema data key d w) as [[[a|]|e] w1]; simpl in *; eauto.
    apply IH. by rewrite Hst. }
  destruct (forIn _ _ w) as [[r'|e] w']; simpl in *; eauto. done.
Qed.

(** So does [deserializeSchema], for such a payload and for every falsy
    one, [null] and [undefined] included. *)
Lemma deserializeSchema_returns l o schema data baseclassErrorResult w :
  objects (store w) !! l = Some o →
  (truthy data = true → answersOwnership (objects (store w)) data) →
  ∃ r, (deserializeSchema (VRef l) schema data baseclassErrorResult w).1 = Returned r.
Proof.
  intros Hl Hd. unfold deserializeSchema.
  destruct (truthy baseclassErrorResult); [simpl; eauto|].
  destruct (truthy data) eqn:Ht; simpl; [|unfold_m; simpl; eauto].
  pose proof (Hd eq_refl) as Hr.
  unfold_m.
  destruct (deserializeFields_spec l o schema data (schemaAt w schema) w Hl Hr)
    as (r & w' & -> & _). simpl. eauto.
Qed.

(** [verifySchema] has no guard for an absent payload: with at least one
    field to walk it throws on [data.hasOwnProperty(key)]. *)
Lemma verifySchema_absent_payload schema data w :
  schemaAt w schema ≠ [] →
  isNullish data = true →
  ∃ msg, verifySchema schema data w = (Thrown (TypeError msg), w).
Proof.
  intros Hs Hd. unfold verifySchema. unfold_m.
  destruct (schemaAt w schema) as [|[key d] s]; [done|].
  rewrite forIn_cons. unfold verifyField, hasOwnProperty, getOwnProperty. unfold_m.
  destruct data; simpl in *; try done; eauto.
Qed.

(** ** The scenario, evaluated *)

Module ScenarioFacts.
Import DataTypes Scenario.

Lemma pair_eta_fst {A B} (p : A * B) (a : A) : p.1 = a → p = (a, p.2).
Proof. destruct p. simpl. by intros ->. Qed.

Example serialize_goal :
  let r := serializeSchema true (VRef 2) 1 VUndefined world in
  r.1 = Returned (VRef 4) ∧
  objects (store r.2) !! 4%positive =
    Some {| constructorName := "Object";
            own := {[ "level" := VNum 3%float; "reward" := VStr "belt" ]} |}.
Proof. vm_compute. done. Qed.

Example deserialize_missing_key :
  (deserializeSchema (VRef 1) 1 (VObj ∅) VNull world).1 =
  Returned (VStr "Missing key in schema: level of class HubGoals").
Proof. vm_compute. done. Qed.

Example verify_nuclear :
  (verifySchema 1 nuclear world).1 =
  Returned (VStr "verify: Unknown enum value: nuclear").
Proof. vm_compute. done. Qed.

Example deserialize_null_level :
  let r := deserializeSchema (VRef 1) 1 nullLevel VNull world in
  r.1 = Returned (VStr "Non-nullable entry is null: level of class HubGoals") ∧
  calls r.2 = [].
Proof. vm_compute. done. Qed.

Example deserialize_nuclear :
  let r := deserializeSchema (VRef 1) 1 nuclear VNull world in
  r.1 = Returned (VStr "Unknown enum value: nuclear") ∧
  own <$> objects (store r.2) !! 1%positive = Some {[ "level" := VNum 3%float ]} ∧
  calls r.2 = [CallDeserializeWithVerify "level" (VNum 3%float);
               CallDeserializeWithVerify "reward" (VStr "nuclear")].
Proof. vm_compute. done. Qed.

Example extend_goal :
  let w := setSchemas <[2%positive := [("level", rewardEnum); ("bonus", uint)]]> world in
  let r := extendSchema 1 2 w in
  r.1 = Returned 3%positive ∧
  schemaKeys (schemaAt r.2 3) = ["level"; "reward"; "bonus"] ∧
  allowNull <$> schemaGet (schemaAt r.2 3) "level" = Some false ∧
  console r.2 = [duplicateKeyLog "level"] ∧
  schemaKeys (schemaAt r.2 1) = ["level"; "reward"] ∧
  schemaKeys (schemaAt r.2 2) = ["level"; "bonus"].
Proof. vm_compute. done. Qed.

Example cached_twice :
  let first := getCachedSchema false HubGoals world in
  let second := getCachedSchema false HubGoals first.2 in
  first.1 = Returned 2%positive ∧ second.1 = Returned 2%positive ∧
  calls second.2 = [CallGetSchema 1].
Proof. vm_compute. done. Qed.

(** C8 (failing input): [verifySchema({level: uint, reward: ...}, null)]
    throws a [TypeError] on its first [data.hasOwnProperty(key)], where
    [deserializeSchema] on the same schema and payload returns
    "Got null data". *)
Theorem verifySchema_null_throws :
  (verifySchema 1 VNull world).1 = Thrown (TypeError "Cannot read properties of null") ∧
  (deserializeSchema (VRef 1) 1 VNull VNull world).1 = Returned (VStr "Got null data").
Proof. vm_compute. done. Qed.

(** C2 (counterexample): a class whose identifier is "toString", asked
    for its schema right after load.  Both caches are plain objects and
    answer [cache["toString"]] with the method they inherit: the development
    build takes that for another class and fails its assert; the production
    build returns the inherited method as the schema, without ever running
    the class's [getSchema]. *)
Lemma getCachedSchema_inherited_name :
  (getCachedSchema true Runtime.Stringer Runtime.atLoad).1 =
    Thrown (AssertionFailed "Class name taken twice: toString (from Stringer)") ∧
  (getCachedSchema false Runtime.Stringer Runtime.atLoad).1 = Returned 109%positive ∧
  calls (getCachedSchema false Runtime.Stringer Runtime.atLoad).2 = [] ∧
  objects (store Runtime.atLoad) !! 109%positive =
    Some (Runtime.functionObject "toString" 0) ∧
  (getSchema Runtime.Stringer (schemas (store Runtime.atLoad))).1 ≠ 109%positive.
Proof.
  split; [by vm_compute|]. split; [by vm_compute|]. split; [by vm_compute|].
  split; by vm_compute.
Qed.

(** C4 (counterexample): two objects that own every field of their
    schema, for which [serializeSchema] throws instead of returning the
    target.  The first has a property named "hasOwnProperty" besides:
    [obj.hasOwnProperty(key)] finds the number, in both builds, and the
    target is left untouched.  The second holds a string where its schema
    declares a number, and the descriptor's [serialize] asserts: the
    development build logs the failure and rethrows. *)
Lemma serializeSchema_shadowed :
  (∀ key, key ∈ schemaKeys (schemaAt world 1) →
     ∃ v, ownProperty (objects (store world)) liveShadowed key = Returned (Some v)) ∧
  (serializeSchema true liveShadowed 1 (VRef 3) world).1 =
    Thrown (TypeError "hasOwnProperty is not a function") ∧
  (serializeSchema false liveShadowed 1 (VRef 3) world).1 =
    Thrown (TypeError "hasOwnProperty is not a function") ∧
  objects (store (serializeSchema false liveShadowed 1 (VRef 3) world).2) !! 3%positive =
    Some target3 ∧
  (∀ key, key ∈ schemaKeys (schemaAt Derived.asserting 5) →
     ∃ v, ownProperty (objects (store Derived.asserting)) Derived.illTyped key =
          Returned (Some v)) ∧
  (serializeSchema true Derived.illTyped 5 (VRef 3) Derived.asserting).1 =
    Thrown (AssertionFailed "Type positive integer got non-number for serialize").
Proof.
  split; [|split; [|split; [|split; [|split]]]]; try by vm_compute.
  - intros key Hin. change (key ∈ ["level"; "reward"]) in Hin.
    apply elem_of_cons in Hin as [->|Hin]; [eexists; by vm_compute|].
    apply list_elem_of_singleton in Hin as ->. eexists; by vm_compute.
  - intros key Hin. change (key ∈ ["level"; "bonus"; "reward"]) in Hin.
    apply elem_of_cons in Hin as [->|Hin]; [eexists; by vm_compute|].
    apply elem_of_cons in Hin as [->|Hin]; [eexists; by vm_compute|].
    apply list_elem_of_singleton in Hin as ->. eexists; by vm_compute.
Qed.


(** C7 (counterexample): the payload
    [{level: 3, reward: "nuclear", hasOwnProperty: 1}] deserializes for
    [level] and fails for [reward], yet [deserializeSchema] neither returns
    the error of [reward] nor assigns [level]: it throws on the first
    [data.hasOwnProperty(key)]. *)
Lemma deserializeSchema_nuclear_shadowed :
  deserializes uint (ownProperty (objects (store world)) nuclearShadowed "level") ∧
  descriptorFails rewardEnum (ownProperty (objects (store world)) nuclearShadowed "reward")
    "Unknown enum value: nuclear" ∧
  (deserializeSchema (VRef 1) 1 nuclearShadowed VNull world).1 =
    Thrown (TypeError "hasOwnProperty is not a function") ∧
  ownProperty (objects (store (deserializeSchema (VRef 1) 1 nuclearShadowed VNull world).2))
    (VRef 1) "level" = Returned None.
Proof.
  split; [|split; [|split; by vm_compute]].
  - exists (VNum 3%float). split; [by vm_compute|]. split; [reflexivity|].
    split; [by vm_compute|]. intros root. eexists. reflexivity.
  - exists (VStr "nuclear"). split; [by vm_compute|]. split; [reflexivity|].
    split; [done|]. left. by vm_compute.
Qed.

(** C9 (counterexample): a falsy payload together with an inherited error.
    [deserializeSchema] returns the inherited error, not "Got null data",
    and logs nothing. *)
Lemma deserializeSchema_falsy_inherited :
  truthy (VNum 0%float) = false ∧
  (deserializeSchema (VRef 1) 2 (VNum 0%float) (VStr "Base class failed") world).1 =
    Returned (VStr "Base class failed") ∧
  (deserializeSchema (VRef 1) 2 VNull (VStr "Base class failed") world).1 =
    Returned (VStr "Base class failed") ∧
  console (deserializeSchema (VRef 1) 2 VNull (VStr "Base class failed") world).2 = [].
Proof. split; [done|]. split; [|split]; by vm_compute. Qed.

Lemma getCachedSchema_witness :
  ∃ schema w1 w2,
    getCachedSchema true HubGoals world = (Returned schema, w1) ∧
    getCachedSchema true HubGoals w1 = (Returned schema, w2) ∧
    schema = (getSchema HubGoals (schemas (store world))).1 ∧
    schemas (store w1) = (getSchema HubGoals (schemas (store world))).2 ∧
    globalSchemaCache (store w1) =
      <[getId HubGoals := schema]> (globalSchemaCache (store world)) ∧
    objects (store w1) = objects (store world) ∧
    store w2 = store w1 ∧
    calls w1 = calls world ++ [CallGetSchema (cls HubGoals)] ∧
    calls w2 = calls w1.
Proof.
  apply (getCachedSchema_once true HubGoals world).
  - by vm_compute.
  - intros _ c H. by vm_compute in H.
Defined.

Lemma serializeSchema_witness :
  ∃ w', serializeSchema true (VRef 2) 1 (VRef 3) world = (Returned (VRef 3), w') ∧
    (∀ key d, (key, d) ∈ schemaAt world 1 →
       ∃ v raw, ownProperty (objects (store world)) (VRef 2) key = Returned (Some v) ∧
                serialize d v = Returned raw ∧
                ownProperty (objects (store w')) (VRef 3) key = Returned (Some raw)) ∧
    (∀ key, key ∉ schemaKeys (schemaAt world 1) →
       ownProperty (objects (store w')) (VRef 3) key =
       ownProperty (objects (store world)) (VRef 3) key).
Proof.
  apply (serializeSchema_merges true (VRef 2) 1 3 target3 world).
  - by vm_compute.
  - apply (bool_decide_unpack _). by vm_compute.
  - by vm_compute.
  - intros key d Hin. change ((key, d) ∈ [("level", uint); ("reward", rewardEnum)]) in Hin.
    apply elem_of_cons in Hin as [[= -> ->]|Hin]; [eexists _, _; split; by vm_compute|].
    apply list_elem_of_singleton in Hin as [= -> ->]. eexists _, _; split; by vm_compute.
Defined.

Lemma deserializeSchema_falsy_witness :
  (deserializeSchema (VRef 1) 2 (VNum 0%float) VNull world).1 = Returned (VStr "Got null data") ∧
  (deserializeSchema (VRef 1) 2 (VStr "") VNull world).1 = Returned (VStr "Got null data") ∧
  (deserializeSchema (VRef 1) 2 (VBool false) VNull world).1 = Returned (VStr "Got null data") ∧
  schemaAt world 2 = [].
Proof.
  split; [|split; [|split]].
  - exact (f_equal fst (deserializeSchema_falsy_data
             (VRef 1) 2 (VNum 0%float) VNull world eq_refl eq_refl)).
  - exact (f_equal fst (deserializeSchema_falsy_data
             (VRef 1) 2 (VStr "") VNull world eq_refl eq_refl)).
  - exact (f_equal fst (deserializeSchema_falsy_data
             (VRef 1) 2 (VBool false) VNull world eq_refl eq_refl)).
  - reflexivity.
Defined.


Lemma deserializeSchema_no_rollback_witness :
  ∃ w2, deserializeSchema (VRef 1) 1 nuclear VNull world =
          (Returned (VStr "Unknown enum value: nuclear"), w2) ∧
    (∀ k dk, (k, dk) ∈ [("level", uint)] → ∃ raw root live,
       ownProperty (objects (store world)) nuclear k = Returned (Some raw) ∧
       deserialize dk raw root = inr live ∧
       ownProperty (objects (store w2)) (VRef 1) k = Returned (Some live)) ∧
    (∃ added, calls w2 = calls world ++ added ∧
              Forall (isDeserializeCallOf ["reward"; "level"]) added).
Proof.
  apply (deserializeSchema_no_rollback 1 fresh1 1 nuclear VNull world
           [("level", uint)] [] "reward" rewardEnum "Unknown enum value: nuclear").
  - reflexivity.
  - reflexivity.
  - reflexivity.
  - reflexivity.
  - apply (bool_decide_unpack _). by vm_compute.
  - by vm_compute.
  - intros k dk [= -> ->]%list_elem_of_singleton.
    exists (VNum 3%float). split; [by vm_compute|]. split; [reflexivity|].
    split; [by vm_compute|]. intros root. eexists. reflexivity.
  - exists (VStr "nuclear"). split; [by vm_compute|]. split; [reflexivity|].
    split; [done|]. left. by vm_compute.
Defined.

End ScenarioFacts.
(** * Further properties *)

(** ** More on [extendSchema] *)
















(** ** More on [getCachedSchema] *)

(** X5: a cached schema is never replaced: whatever class [getCachedSchema]
    is called for, in either build and whether it returns or throws, every
    identifier that had a cached schema still has the same one, and the only
    identifier that may gain one is the class's own. *)
Theorem getCachedSchema_append_only (G_IS_DEV : bool) (this : SerializableClass) (w : World) :
  let w' := (getCachedSchema G_IS_DEV this w).2 in
  (∀ id entry, globalSchemaCache (store w) !! id = Some entry →
               globalSchemaCache (store w') !! id = Some entry) ∧
  (∀ id, id ≠ getId this →
         globalSchemaCache (store w') !! id = globalSchemaCache (store w) !! id).
Proof.
  unfold getCachedSchema. unfold_m.
  destruct G_IS_DEV; simpl.
  - destruct (bool_decide _ || bool_decide _); simpl; [|done].
    destruct (globalSchemaCache (store w) !! getId this) as [entry|] eqn:Hentry; simpl.
    + done.
    + destruct (getSchema this (schemas (store w))) as [schema schemas']. simpl. split.
      * intros id entry Hid. rewrite lookup_insert_ne; [done|]. intros <-. congruence.
      * intros id Hne. by rewrite lookup_insert_ne.
  - destruct (globalSchemaCache (store w) !! getId this) as [entry|] eqn:Hentry; simpl.
    + done.
    + destruct (getSchema this (schemas (store w))) as [schema schemas']. simpl. split.
      * intros id entry Hid. rewrite lookup_insert_ne; [done|]. intros <-. congruence.
      * intros id Hne. by rewrite lookup_insert_ne.
Qed.

(** X6: a class whose identifier is already registered by another class: a
    development build throws "Class name taken twice" and changes nothing; a
    production build returns the schema the other class cached, without
    running this class's [getSchema]. *)
Theorem getCachedSchema_taken_twice (this : SerializableClass) (w : World)
    (other : positive) (entry : loc) :
  classnamesCache (store w) !! getId this = Some other →
  other ≠ cls this →
  globalSchemaCache (store w) !! getId this = Some entry →
  getCachedSchema true this w =
    (Thrown (AssertionFailed ("Class name taken twice: " +:+ getId this +:+
                              " (from " +:+ name this +:+ ")")), w) ∧
  getCachedSchema false this w = (Returned entry, w).
Proof.
  intros Hother Hne Hentry.
  assert (bool_decide (classnamesCache (store w) !! getId this = Some (cls this))
          || bool_decide (classnamesCache (store w) !! getId this = None) = false) as Hseen.
  { rewrite Hother. rewrite !bool_decide_eq_false_2; [done| |]; congruence. }
  unfold getCachedSchema. unfold_m. cbv beta. rewrite Hseen. simpl. by rewrite Hentry.
Qed.

(** ** More on [serializeSchema] *)



Lemma owned_not_hasOwnProperty objs obj (keys : list string) :
  answersOwnership objs obj →
  (∀ key, key ∈ keys → ∃ v, ownProperty objs obj key = Returned (Some v)) →
  "hasOwnProperty" ∉ keys.
Proof.
  intros Hobj Hown Hin. destruct (Hown _ Hin) as [v Hv].
  unfold answersOwnership in Hobj. congruence.
Qed.



(** X9: in a production build [serializeSchema] never rejects an object for
    lacking a field. For an object that can be asked [hasOwnProperty], under
    a schema with no field of that name and whose descriptors all serialize,
    every schema key ends up bound in the target, to the descriptor's
    [serialize] of what [obj[key]] reads, and the console gets one
    "Invalid schema" line per field the object lacks, in the schema's order. *)
Theorem serializeSchema_production (obj : Val) (schema m : loc) (o : JsObject) (w : World) :
  objects (store w) !! m = Some o →
  answersOwnership (objects (store w)) obj →
  "hasOwnProperty" ∉ schemaKeys (schemaAt w schema) →
  NoDup (schemaKeys (schemaAt w schema)) →
  (∀ key d, (key, d) ∈ schemaAt w schema →
     ∃ raw, serialize d (propertyOf (store w) obj key) = Returned raw) →
  ∃ w', serializeSchema false obj schema (VRef m) w = (Returned (VRef m), w') ∧
    (∀ key d raw, (key, d) ∈ schemaAt w schema →
       serialize d (propertyOf (store w) obj key) = Returned raw →
       ownProperty (objects (store w')) (VRef m) key = Returned (Some raw)) ∧
    console w' = console w ++
      (missingFieldLog obj schema <$>
         filter (λ key, lacksOwn (objects (store w)) obj key = true)
                (schemaKeys (schemaAt w schema))).
Proof.
  intros Hm Hobj Hname Hnd Hser.
  destruct (serializeFields_frame false obj schema m (schemaAt w schema) w o
              Hm Hobj (λ _, Hname) Hnd)
    as (w' & o' & Hrun & Hobjs & _ & _ & _ & Hbound & _ & _ & _ & _ & _ & Hlog & _);
    [done|done|].
  exists w'. split; [|split; [|done]].
  - unfold serializeSchema. unfold_m. simpl. by rewrite Hrun.
  - intros key d raw Hin Hraw. destruct (Hbound key d Hin) as (raw' & Hraw' & Hown).
    rewrite Hraw in Hraw'. injection Hraw' as <-.
    simpl. by rewrite Hobjs, lookup_insert_eq, Hown.
Qed.

(** The walk of [serializeSchema] in a development build over fields the
    object owns and the descriptors serialize. *)
Lemma serializeFields_owned obj schema m pre w o :
  objects (store w) !! m = Some o →
  NoDup (schemaKeys pre) →
  answersOwnership (objects (store w)) obj →
  (∀ k dk, (k, dk) ∈ pre →
     ∃ v raw, ownProperty (objects (store w)) obj k = Returned (Some v) ∧
              serialize dk v = Returned raw) →
  ∃ w1 o1, forIn pre (serializeField true obj schema (VRef m)) w = (Returned None, w1) ∧
    objects (store w1) = <[m := o1]> (objects (store w)) ∧
    (∀ k, k ∉ schemaKeys pre → own o1 !! k = own o !! k) ∧
    (∀ k dk v raw, (k, dk) ∈ pre →
       ownProperty (objects (store w)) obj k = Returned (Some v) →
       serialize dk v = Returned raw → own o1 !! k = Some raw) ∧
    schemas (store w1) = schemas (store w) ∧
    prototypes (store w1) = prototypes (store w) ∧
    answersOwnership (objects (store w1)) obj ∧
    console w1 = console w ∧
    calls w1 = calls w ++
      ((λ kd, CallSerialize kd.1 (propertyOf (store w) obj kd.1)) <$> pre).
Proof.
  intros Hm Hnd Hobj Hown.
  assert (∀ k, k ∈ schemaKeys pre →
            ∃ v, ownProperty (objects (store w)) obj k = Returned (Some v)) as Howns.
  { intros k Hin. apply list_elem_of_fmap in Hin as ([k' dk] & -> & Hin).
    destruct (Hown k' dk Hin) as (v & raw & Hv & _). eauto. }
  destruct (serializeFields_frame true obj schema m pre w o Hm Hobj)
    as (w1 & o1 & Hrun & Hobjs & _ & _ & Hrest & Hbound & Hs & _ & _ & Hp & Hans & Hlog & Hcalls).
  { intros _. by eapply owned_not_hasOwnProperty. }
  { done. }
  { by intros _. }
  { intros k dk Hin. destruct (Hown k dk Hin) as (v & raw & Hv & Hraw).
    exists raw. by rewrite (propertyOf_own _ _ _ _ Hv). }
  exists w1, o1. do 3 (split; [done|]). split.
  { intros k dk v raw Hin Hv Hraw. destruct (Hbound k dk Hin) as (raw' & Hraw' & Hown').
    rewrite (propertyOf_own _ _ _ _ Hv), Hraw in Hraw'. by injection Hraw' as <-. }
  do 3 (split; [done|]). split; [|done].
  rewrite Hlog.
  assert (filter (λ key, lacksOwn (objects (store w)) obj key = true) (schemaKeys pre) = [])
    as ->; [|by rewrite app_nil_r].
  generalize Howns. generalize (schemaKeys pre). intros ks Hks.
  induction ks as [|k ks IH]; [done|].
  rewrite filter_cons_False.
  - apply IH. intros k' Hk'. apply Hks. by right.
  - destruct (Hks k) as [v Hv]; [left|]. unfold lacksOwn. by rewrite Hv.
Qed.

Lemma ownProperty_target_frame objs m o o1 obj key :
  objs !! m = Some o →
  own o1 !! key = own o !! key →
  ownProperty (<[m := o1]> objs) obj key = ownProperty objs obj key.
Proof.
  intros Hm Hkey. destruct obj as [| | | | | | |l]; simpl; try done.
  destruct (decide (m = l)) as [<-|Hne].
  - by rewrite lookup_insert_eq, Hm, Hkey.
  - by rewrite lookup_insert_ne.
Qed.

(** X10: in a development build, with an object that can be asked
    [hasOwnProperty] and whose earlier fields the descriptors serialize, the
    first field the object lacks stops [serializeSchema] with an assertion
    failure naming it; the fields before it are already written into the
    target, and stay written. *)
Theorem serializeSchema_missing_field (obj : Val) (schema m : loc) (o : JsObject) (w : World)
    (pre post : Schema) (key : string) (d : BaseDataType) :
  objects (store w) !! m = Some o →
  schemaAt w schema = pre ++ (key, d) :: post →
  NoDup (key :: schemaKeys pre) →
  answersOwnership (objects (store w)) obj →
  (∀ k dk, (k, dk) ∈ pre →
     ∃ v raw, ownProperty (objects (store w)) obj k = Returned (Some v) ∧
              serialize dk v = Returned raw) →
  ownProperty (objects (store w)) obj key = Returned None →
  ∃ w', serializeSchema true obj schema (VRef m) w =
          (Thrown (AssertionFailed
             ("serialization: invalid schema, property does not exist on object: " +:+ key)),
           w') ∧
    (∀ k dk v raw, (k, dk) ∈ pre →
       ownProperty (objects (store w)) obj k = Returned (Some v) →
       serialize dk v = Returned raw →
       ownProperty (objects (store w')) (VRef m) k = Returned (Some raw)) ∧
    ownProperty (objects (store w')) (VRef m) key = ownProperty (objects (store w)) (VRef m) key.
Proof.
  intros Hm Hs Hnd Hobj Hown Hmiss. apply NoDup_cons in Hnd as [Hkey Hnd].
  destruct (serializeFields_owned obj schema m pre w o Hm Hnd Hobj Hown)
    as (w1 & o1 & Hrun & Hobjs & Hrest & Hbound & _ & _ & Hans & _).
  assert (ownProperty (objects (store w1)) obj key = Returned None) as Hmiss1.
  { rewrite Hobjs, (ownProperty_target_frame _ m o) by auto. done. }
  eexists. split.
  { unfold serializeSchema. unfold_m. simpl. rewrite Hs, forIn_app, Hrun, forIn_cons.
    unfold serializeField.
    erewrite bind_returned by (by eapply hasOwnProperty_run).
    rewrite bool_decide_eq_false_2 by (by intros [? ?]). unfold_m. simpl. done. }
  simpl. rewrite Hobjs. split.
  - intros k dk v raw Hin Hv Hraw. rewrite lookup_insert_eq.
    by rewrite (Hbound k dk v raw Hin Hv Hraw).
  - rewrite lookup_insert_eq, Hm. by rewrite Hrest.
Qed.

(** ** Super calls: a base-class walk followed by a derived-class walk *)

Lemma sameState_refl w : sameState w w.
Proof. done. Qed.

Lemma forIn_sim {A} (s : Schema) (body body' : string → BaseDataType → M (option A)) :
  (∀ key d w v, sameState w v →
     (body key d w).1 = (body' key d v).1 ∧ sameState (body key d w).2 (body' key d v).2) →
  ∀ w v, sameState w v →
    (forIn s body w).1 = (forIn s body' v).1 ∧
    sameState (forIn s body w).2 (forIn s body' v).2.
Proof.
  intros Hbody. induction s as [|[key d] s IH]; intros w v Hwv; [done|].
  rewrite !forIn_cons. destruct (Hbody key d w v Hwv) as [Hr Hst].
  destruct (body key d w) as [[[a|]|e] w1], (body' key d v) as [[[a'|]|e'] v1];
    simpl in *; simplify_eq; auto.
Qed.

Lemma serializeField_sim (G_IS_DEV : bool) obj schema schema' mergeWith key d w v :
  sameState w v →
  (serializeField G_IS_DEV obj schema mergeWith key d w).1 =
    (serializeField G_IS_DEV obj schema' mergeWith key d v).1 ∧
  sameState (serializeField G_IS_DEV obj schema mergeWith key d w).2
            (serializeField G_IS_DEV obj schema' mergeWith key d v).2.
Proof.
  destruct w as [st cs ca], v as [st' cs' ca']. intros [Hst Hca]. simpl in *. subst st' ca'.
  unfold serializeField, hasOwnProperty, getProp, getOwnProperty, setProp, sameState.
  unfold_m. simpl.
  repeat (case_match; simplify_eq/=); done.
Qed.

Lemma deserializeField_sim obj schema schema' data key d w v :
  sameState w v →
  (deserializeField obj schema data key d w).1 =
    (deserializeField obj schema' data key d v).1 ∧
  sameState (deserializeField obj schema data key d w).2
            (deserializeField obj schema' data key d v).2.
Proof.
  destruct w as [st cs ca], v as [st' cs' ca']. intros [Hst Hca]. simpl in *. subst st' ca'.
  unfold deserializeField, deserializeWithVerify, hasOwnProperty, getProp, getOwnProperty,
    setProp, constructorNameOf, sameState, truthyStatus.
  unfold_m. simpl.
  repeat (case_match; simplify_eq/=); done.
Qed.

Lemma serializeField_schemas (G_IS_DEV : bool) obj schema mergeWith key d w :
  schemas (store (serializeField G_IS_DEV obj schema mergeWith key d w).2) = schemas (store w).
Proof.
  unfold serializeField, hasOwnProperty, getProp, getOwnProperty, setProp.
  unfold_m. simpl.
  repeat (case_match; simplify_eq/=); done.
Qed.

Lemma deserializeField_schemas obj schema data key d w :
  schemas (store (deserializeField obj schema data key d w).2) = schemas (store w).
Proof.
  unfold deserializeField, deserializeWithVerify, hasOwnProperty, getProp, getOwnProperty,
    setProp, constructorNameOf, truthyStatus.
  unfold_m. simpl.
  repeat (case_match; simplify_eq/=); done.
Qed.

Lemma forIn_schemas {A} (s : Schema) (body : string → BaseDataType → M (option A)) :
  (∀ key d w, schemas (store (body key d w).2) = schemas (store w)) →
  ∀ w, schemas (store (forIn s body w).2) = schemas (store w).
Proof.
  intros Hbody. induction s as [|[key d] s IH]; intros w; [done|].
  rewrite forIn_cons. specialize (Hbody key d w).
  destruct (body key d w) as [[[a|]|e] w1]; simpl in *; [done| |done].
  by rewrite IH.
Qed.

Lemma deserializeField_truthy obj schema data key d w e w' :
  deserializeField obj schema data key d w = (Returned (Some e), w') → truthy e = true.
Proof.
  unfold deserializeField, deserializeWithVerify, hasOwnProperty, getProp, getOwnProperty,
    setProp, constructorNameOf, truthyStatus.
  unfold_m. simpl. intros H.
  repeat (case_match; simplify_eq/=); done.
Qed.

Lemma deserializeFields_truthy obj schema data s : ∀ w e w',
  forIn s (deserializeField obj schema data) w = (Returned (Some e), w') → truthy e = true.
Proof.
  induction s as [|[key d] s IH]; intros w e w'; [done|].
  rewrite forIn_cons.
  destruct (deserializeField obj schema data key d w) as [[[a|]|ex] w1] eqn:Hstep; [| |done].
  - intros [= <- <-]. by eapply deserializeField_truthy.
  - apply IH.
Qed.

Lemma forIn_two_phase {A} (s1 s2 : Schema)
    (body1 body2 body : string → BaseDataType → M (option A)) (w : World) :
  (∀ key d w v, sameState w v →
     (body1 key d w).1 = (body key d v).1 ∧ sameState (body1 key d w).2 (body key d v).2) →
  (∀ key d w v, sameState w v →
     (body2 key d w).1 = (body key d v).1 ∧ sameState (body2 key d w).2 (body key d v).2) →
  let chain := match forIn s1 body1 w with
               | (Returned None, w1) => forIn s2 body2 w1
               | r => r
               end in
  chain.1 = (forIn (s1 ++ s2) body w).1 ∧ sameState chain.2 (forIn (s1 ++ s2) body w).2.
Proof.
  intros H1 H2. simpl. rewrite forIn_app.
  destruct (forIn_sim s1 body1 body H1 w w (sameState_refl w)) as [Hr Hst].
  destruct (forIn s1 body1 w) as [[[x|]|e] w1], (forIn s1 body w) as [[[x'|]|e'] v1];
    simpl in *; simplify_eq; auto.
  by apply forIn_sim.
Qed.

Lemma serializeField_none (G_IS_DEV : bool) obj schema mergeWith key d w a w' :
  serializeField G_IS_DEV obj schema mergeWith key d w = (Returned a, w') → a = None.
Proof.
  unfold serializeField. unfold_m. intros H.
  repeat (case_match; simplify_eq/=); done.
Qed.

Lemma serializeFields_none (G_IS_DEV : bool) obj schema mergeWith s : ∀ w a w',
  forIn s (serializeField G_IS_DEV obj schema mergeWith) w = (Returned a, w') → a = None.
Proof.
  induction s as [|[key d] s IH]; intros w a w'; [by intros [= <- <-]|].
  rewrite forIn_cons.
  destruct (serializeField G_IS_DEV obj schema mergeWith key d w) as [[[x|]|e] w1] eqn:Hstep;
    [|apply IH|done].
  by apply serializeField_none in Hstep.
Qed.

(** X11: serializing with a base schema and then, into the returned object,
    with a derived class's own schema (the super-call pattern) gives the same
    result, store and descriptor calls as one [serializeSchema] over a schema
    holding the base fields followed by the derived ones. *)
Theorem serializeSchema_super_call (G_IS_DEV : bool) (obj : Val) (a b c : loc)
    (mergeWith : Val) (w : World) :
  schemaAt w c = schemaAt w a ++ schemaAt w b →
  let chain := (r ← serializeSchema G_IS_DEV obj a mergeWith;
                serializeSchema G_IS_DEV obj b r) w in
  let whole := serializeSchema G_IS_DEV obj c mergeWith w in
  chain.1 = whole.1 ∧ store chain.2 = store whole.2 ∧ calls chain.2 = calls whole.2.
Proof.
  intros Hc.
  assert (∀ (target : Val) (w0 : World),
            target ≠ VUndefined →
            schemas (store w0) = schemas (store w) →
            let chain := ((forIn (schemaAt w0 a) (serializeField G_IS_DEV obj a target) ≫= λ _,
                           mret target) ≫= λ r,
                          serializeSchema G_IS_DEV obj b r) w0 in
            let whole := (forIn (schemaAt w0 c) (serializeField G_IS_DEV obj c target) ≫= λ _,
                          mret target) w0 in
            chain.1 = whole.1 ∧ sameState chain.2 whole.2) as Hloop.
  { intros target w0 Htarget Hs0.
    assert (∀ r, schemaAt w0 r = schemaAt w r) as Hat by (intros r; unfold schemaAt; by rewrite Hs0).
    rewrite !Hat, Hc.
    pose proof (forIn_two_phase (schemaAt w a) (schemaAt w b)
                  (serializeField G_IS_DEV obj a target) (serializeField G_IS_DEV obj b target)
                  (serializeField G_IS_DEV obj c target) w0
                  (λ key d, serializeField_sim G_IS_DEV obj a c target key d)
                  (λ key d, serializeField_sim G_IS_DEV obj b c target key d)) as Htwo.
    simpl in Htwo. unfold_m. simpl.
    pose proof (forIn_schemas (schemaAt w a) (serializeField G_IS_DEV obj a target)
                  (serializeField_schemas G_IS_DEV obj a target) w0) as Hs1.
    destruct (forIn (schemaAt w a) (serializeField G_IS_DEV obj a target) w0)
      as [[x|e] w1] eqn:Hfirst.
    - apply serializeFields_none in Hfirst as ->. simpl in *.
      assert (∀ w2, serializeSchema G_IS_DEV obj b target w2 =
                    (forIn (schemaAt w2 b) (serializeField G_IS_DEV obj b target) ≫= λ _,
                     mret target) w2) as Hsecond.
      { intros w2. unfold serializeSchema. unfold_m. by destruct target. }
      rewrite Hsecond. unfold_m.
      assert (schemaAt w1 b = schemaAt w b) as ->.
      { unfold schemaAt. by rewrite Hs1, Hs0. }
      destruct (forIn (schemaAt w b) _ w1) as [[y|e] w2],
               (forIn (schemaAt w a ++ schemaAt w b) _ w0) as [[y'|e'] v2];
        simpl in *; destruct Htwo as [Hr Hst]; simplify_eq; done.
    - simpl in *.
      destruct (forIn (schemaAt w a ++ schemaAt w b) _ w0) as [[y'|e'] v2];
        simpl in *; destruct Htwo as [Hr Hst]; simplify_eq; done. }
  assert (∀ chain whole : Outcome Val * World,
            chain.1 = whole.1 ∧ sameState chain.2 whole.2 →
            chain.1 = whole.1 ∧ store chain.2 = store whole.2 ∧ calls chain.2 = calls whole.2)
    as Hsplit by (intros ? ? (? & ? & ?); done).
  simpl. apply Hsplit.
  assert (mergeWith = VUndefined ∨ mergeWith ≠ VUndefined) as [->|Hne].
  { destruct mergeWith; auto. }
  - specialize (Hloop (VRef (fresh (dom (objects (store w)))))
                  (setObjects <[fresh (dom (objects (store w))) := emptyObject]> w)
                  ltac:(done) eq_refl).
    unfold serializeSchema at 1 3. unfold newObject. unfold_m. simpl in *. exact Hloop.
  - specialize (Hloop mergeWith w Hne eq_refl).
    unfold serializeSchema at 1 3. unfold_m. simpl in *.
    destruct mergeWith; try done; exact Hloop.
Qed.

(** X12: deserializing with a base schema and passing the result on to a
    deserialization with a derived class's own schema gives the same result,
    store and descriptor calls as one [deserializeSchema] over a schema holding
    the base fields followed by the derived ones; a base-class error comes
    back as it is, with no derived field visited. *)
Theorem deserializeSchema_super_call (obj : Val) (a b c : loc)
    (data baseclassErrorResult : Val) (w : World) :
  schemaAt w c = schemaAt w a ++ schemaAt w b →
  let chain := (r ← deserializeSchema obj a data baseclassErrorResult;
                deserializeSchema obj b data r) w in
  let whole := deserializeSchema obj c data baseclassErrorResult w in
  chain.1 = whole.1 ∧ store chain.2 = store whole.2 ∧ calls chain.2 = calls whole.2.
Proof.
  intros Hc.
  assert (∀ s e v, truthy e = true → deserializeSchema obj s data e v = (Returned e, v)) as Herr.
  { intros s e v He. unfold deserializeSchema. by rewrite He. }
  assert (∀ s e v, truthy e = false → deserializeSchema obj s data e v =
            (if negb (truthy data)
             then logError [LStr "Got 'NULL' data for"; LVal obj; LStr "and schema";
                            LSchema s; LStr "!"];; mret (VStr "Got null data")
             else r ← forIn (schemaAt v s) (deserializeField obj s data);
                  mret (default VUndefined r)) v) as Hundef.
  { intros s e v He. unfold deserializeSchema. rewrite He. by destruct (truthy data). }
  cbv zeta. unfold mbind, M_bind.
  destruct (truthy baseclassErrorResult) eqn:Hb.
  { rewrite !Herr by done. simpl. rewrite ?Herr by done. done. }
  rewrite !(Hundef _ baseclassErrorResult) by done.
  destruct (truthy data) eqn:Hd; simpl.
  2:{ unfold_m. simpl. rewrite ?Herr by done. done. }
  unfold_m. rewrite Hc.
  pose proof (forIn_two_phase (schemaAt w a) (schemaAt w b)
                (deserializeField obj a data) (deserializeField obj b data)
                (deserializeField obj c data) w
                (λ key d, deserializeField_sim obj a c data key d)
                (λ key d, deserializeField_sim obj b c data key d)) as Htwo.
  simpl in Htwo.
  pose proof (forIn_schemas (schemaAt w a) (deserializeField obj a data)
                (deserializeField_schemas obj a data) w) as Hs1.
  destruct (forIn (schemaAt w a) (deserializeField obj a data) w) as [[[e|]|ex] w1] eqn:Hfirst;
    simpl in *.
  - apply deserializeFields_truthy in Hfirst as Ht.
    rewrite Herr by done.
    destruct (forIn (schemaAt w a ++ schemaAt w b) _ w) as [[y'|e'] v2];
      simpl in *; destruct Htwo as [Hr [Hst Hca]]; simplify_eq; done.
  - rewrite !Hundef by done. simpl. unfold_m.
    assert (schemaAt w1 b = schemaAt w b) as ->.
    { unfold schemaAt. by rewrite Hs1. }
    destruct (forIn (schemaAt w b) _ w1) as [[y|e] w2],
             (forIn (schemaAt w a ++ schemaAt w b) _ w) as [[y'|e'] v2];
      simpl in *; destruct Htwo as [Hr [Hst Hca]]; simplify_eq; done.
  - destruct (forIn (schemaAt w a ++ schemaAt w b) _ w) as [[y'|e'] v2];
      simpl in *; destruct Htwo as [Hr [Hst Hca]]; simplify_eq; done.
Qed.

(** ** What the walks return *)

Lemma verifyField_prefix schema data key d w r w' :
  verifyField schema data key d w = (Returned (Some r), w') →
  ∃ msg, r = VStr ("verify: " +:+ msg).
Proof.
  unfold verifyField, hasOwnProperty, getProp, getOwnProperty.
  unfold_m. simpl. intros H.
  repeat (case_match; simplify_eq/=); eauto.
Qed.

(** X13: whatever [verifySchema] returns is either [undefined] or a string
    that starts with "verify: ". *)
Theorem verifySchema_result (schema : loc) (data : Val) (w w' : World) (r : Val) :
  verifySchema schema data w = (Returned r, w') →
  r = VUndefined ∨ ∃ msg, r = VStr ("verify: " +:+ msg).
Proof.
  unfold verifySchema. unfold_m.
  generalize (schemaAt w schema). intros s.
  assert (∀ w x w', forIn s (verifyField schema data) w = (Returned (Some x), w') →
            ∃ msg, x = VStr ("verify: " +:+ msg)) as Hwalk.
  { induction s as [|[key d] s IH]; intros w0 x w0'; [done|].
    rewrite forIn_cons.
    destruct (verifyField schema data key d w0) as [[[y|]|e] w1] eqn:Hstep; [| |done].
    - intros [= <- <-]. by eapply verifyField_prefix.
    - apply IH. }
  destruct (forIn s (verifyField schema data) w) as [[[x|]|e] w1] eqn:Hrun; simpl.
  - intros [= <- <-]. right. by eapply Hwalk.
  - intros [= <- <-]. by left.
  - done.
Qed.

(** X14: whatever [deserializeSchema] returns is either [undefined] or truthy:
    a caller testing the result with [if (result)] misses no error. *)
Theorem deserializeSchema_result (obj : Val) (schema : loc)
    (data baseclassErrorResult : Val) (w w' : World) (r : Val) :
  deserializeSchema obj schema data baseclassErrorResult w = (Returned r, w') →
  r = VUndefined ∨ truthy r = true.
Proof.
  unfold deserializeSchema.
  destruct (truthy baseclassErrorResult) eqn:Hb.
  { intros [= <- <-]. by right. }
  destruct (truthy data); simpl.
  2:{ unfold_m. simpl. intros [= <- <-]. by right. }
  unfold_m.
  destruct (forIn _ _ w) as [[[x|]|e] w1] eqn:Hrun; simpl.
  - intros [= <- <-]. right. by eapply deserializeFields_truthy.
  - intros [= <- <-]. by left.
  - done.
Qed.

(** ** The methods of [BasicSerializableObject] *)



(** ** When the walks throw *)

Lemma ownProperty_fault objs v key e :
  ownProperty objs v key = Thrown e → ∃ msg, e = TypeError msg.
Proof.
  destruct v; simpl; try done; try (intros [= <-]; eauto).
  destruct (objs !! l); [done|]. intros [= <-]. eauto.
Qed.

(** Asking a value that cannot be asked throws a [TypeError] and changes
    nothing. *)
Lemma hasOwnProperty_throws v key w :
  ¬ answersOwnership (objects (store w)) v →
  ∃ msg, hasOwnProperty v key w = (Thrown (TypeError msg), w).
Proof.
  intros Hno. unfold hasOwnProperty, getOwnProperty. unfold_m.
  destruct (ownProperty (objects (store w)) v "hasOwnProperty") as [[x|]|e] eqn:Hown; simpl.
  - eauto.
  - by destruct Hno.
  - destruct (ownProperty_fault _ _ _ _ Hown) as [msg ->]. eauto.
Qed.

(** X16: for a payload whose own "hasOwnProperty" property, if it has one,
    is plain data rather than a reference to an object, [verifySchema] throws
    exactly when the schema has a field and the payload cannot be asked
    [hasOwnProperty]: it has no properties to read ([null], [undefined]) or
    it has one of its own by that name.  The first [data.hasOwnProperty(key)]
    is then a [TypeError], and the world is as it was.  On every other such
    payload, and on every payload under an empty schema, it returns. *)
Theorem verifySchema_throws_iff (schema : loc) (data : Val) (w : World) :
  (∀ l, ownProperty (objects (store w)) data "hasOwnProperty" ≠ Returned (Some (VRef l))) →
  ((∃ e, (verifySchema schema data w).1 = Thrown e) ↔
   schemaAt w schema ≠ [] ∧ ¬ answersOwnership (objects (store w)) data) ∧
  (∀ e, (verifySchema schema data w).1 = Thrown e →
        (∃ msg, e = TypeError msg) ∧ (verifySchema schema data w).2 = w).
Proof.
  intros _.
  assert (schemaAt w schema ≠ [] → ¬ answersOwnership (objects (store w)) data →
          ∃ msg, verifySchema schema data w = (Thrown (TypeError msg), w)) as Hthrows.
  { intros Hs Hd. unfold verifySchema. unfold_m.
    destruct (schemaAt w schema) as [|[key d] s]; [done|].
    rewrite forIn_cons. unfold verifyField.
    destruct (hasOwnProperty_throws data key w Hd) as [msg Hrun].
    exists msg. unfold_m. by rewrite Hrun. }
  assert ((∃ e, (verifySchema schema data w).1 = Thrown e) →
          schemaAt w schema ≠ [] ∧ ¬ answersOwnership (objects (store w)) data) as Honly.
  { intros [e He]. split.
    - intros Hs. revert He. unfold verifySchema. unfold_m. by rewrite Hs.
    - intros Hr. destruct (verifySchema_returns schema data w Hr) as [r Hret]. congruence. }
  split; [split|].
  - exact Honly.
  - intros [Hs Hd]. destruct (Hthrows Hs Hd) as [msg Hrun]. rewrite Hrun. eauto.
  - intros e He. destruct (Honly (ex_intro _ e He)) as [Hs Hd].
    destruct (Hthrows Hs Hd) as [msg Hrun]. rewrite Hrun in He |- *. simpl in *.
    split; [|done]. exists msg. congruence.
Qed.

(** X17: [deserializeSchema] needs its target.  With [null] or [undefined]
    for [obj], a schema with at least one field and a payload that is there,
    the first field throws a [TypeError] (on [obj.constructor.name] or on
    [obj.root], if not already on [data.hasOwnProperty]), whatever the
    payload holds; no object, schema or cache has changed. *)
Theorem deserializeSchema_absent_target (obj : Val) (schema : loc)
    (data baseclassErrorResult : Val) (w : World) :
  isNullish obj = true →
  truthy baseclassErrorResult = false →
  truthy data = true →
  readable (objects (store w)) data →
  schemaAt w schema ≠ [] →
  let r := deserializeSchema obj schema data baseclassErrorResult w in
  (∃ msg, r.1 = Thrown (TypeError msg)) ∧ store r.2 = store w.
Proof.
  intros Hobj Hb Hd Hr Hs. simpl. unfold deserializeSchema. rewrite Hb, Hd. simpl.
  unfold_m. destruct (schemaAt w schema) as [|[key d] s]; [done|].
  rewrite forIn_cons.
  destruct (proj1 (ownProperty_readable _ _ "hasOwnProperty") Hr) as [[x|] Hm].
  { unfold deserializeField. unfold_m.
    rewrite (hasOwnProperty_shadowed _ _ _ _ Hm). simpl. eauto. }
  destruct (proj1 (ownProperty_readable _ _ key) Hr) as [ov Hov].
  unfold deserializeField.
  erewrite bind_returned by (by eapply hasOwnProperty_run).
  destruct ov as [value|]; simpl.
  - erewrite bind_returned by (by eapply getProp_own). simpl.
    unfold getProp, getOwnProperty, constructorNameOf. unfold_m.
    destruct obj; try done; simpl;
      destruct (negb (allowNull d) && isNullish value); simpl; eauto.
  - unfold constructorNameOf. unfold_m. destruct obj; try done; simpl; eauto.
Qed.
(** ** The derived class, evaluated *)

Module DerivedFacts.
Import DataTypes Scenario Derived.






Lemma getCachedSchema_taken_twice_witness :
  getCachedSchema true HubGoals taken =
    (Thrown (AssertionFailed ("Class name taken twice: " +:+ getId HubGoals +:+
                              " (from " +:+ name HubGoals +:+ ")")), taken) ∧
  getCachedSchema false HubGoals taken = (Returned 1%positive, taken).
Proof.
  apply (getCachedSchema_taken_twice HubGoals taken 2 1).
  - by vm_compute.
  - by vm_compute.
  - by vm_compute.
Defined.



(** The field [toString], which the object lacks, is serialized from the
    method the object inherits. *)
Example serialize_inherited :
  let r := serializeSchema false levelOnly 1 (VRef 3) inheriting in
  r.1 = Returned (VRef 3) ∧
  propertyOf (store inheriting) levelOnly "toString" = VRef 109 ∧
  ownProperty (objects (store r.2)) (VRef 3) "toString" = Returned (Some (VRef 109)) ∧
  console r.2 = [missingFieldLog levelOnly 1 "toString"].
Proof. repeat split; by vm_compute. Qed.

Lemma serializeSchema_production_witness :
  ∃ w', serializeSchema false levelOnly 1 (VRef 3) inheriting = (Returned (VRef 3), w') ∧
    (∀ key d raw, (key, d) ∈ schemaAt inheriting 1 →
       serialize d (propertyOf (store inheriting) levelOnly key) = Returned raw →
       ownProperty (objects (store w')) (VRef 3) key = Returned (Some raw)) ∧
    console w' = console inheriting ++
      (missingFieldLog levelOnly 1 <$>
         filter (λ key, lacksOwn (objects (store inheriting)) levelOnly key = true)
                (schemaKeys (schemaAt inheriting 1))).
Proof.
  apply (serializeSchema_production levelOnly 1 3 target3 inheriting).
  - by vm_compute.
  - by vm_compute.
  - apply (bool_decide_unpack _). by vm_compute.
  - apply (bool_decide_unpack _). by vm_compute.
  - intros key d Hin. eexists.
    change ((key, d) ∈ [("level", uint); ("toString", uint)]) in Hin.
    apply elem_of_cons in Hin as [[= -> ->]|Hin]; [reflexivity|].
    apply list_elem_of_singleton in Hin as [= -> ->]. reflexivity.
Defined.

Lemma serializeSchema_missing_field_witness :
  ∃ w', serializeSchema true levelOnly 1 (VRef 3) world =
          (Thrown (AssertionFailed
             ("serialization: invalid schema, property does not exist on object: " +:+
              "reward")),
           w') ∧
    (∀ k dk v raw, (k, dk) ∈ [("level", uint)] →
       ownProperty (objects (store world)) levelOnly k = Returned (Some v) →
       serialize dk v = Returned raw →
       ownProperty (objects (store w')) (VRef 3) k = Returned (Some raw)) ∧
    ownProperty (objects (store w')) (VRef 3) "reward" =
    ownProperty (objects (store world)) (VRef 3) "reward".
Proof.
  apply (serializeSchema_missing_field levelOnly 1 3 target3 world
           [("level", uint)] [] "reward" rewardEnum).
  - by vm_compute.
  - reflexivity.
  - apply (bool_decide_unpack _). by vm_compute.
  - by vm_compute.
  - intros k dk [= -> ->]%list_elem_of_singleton. eexists _, _. split; by vm_compute.
  - by vm_compute.
Defined.


Lemma serializeSchema_super_call_witness :
  let chain := (r ← serializeSchema true (VRef 4) 1 VUndefined;
                serializeSchema true (VRef 4) 3 r) family in
  let whole := serializeSchema true (VRef 4) 4 VUndefined family in
  chain.1 = whole.1 ∧ store chain.2 = store whole.2 ∧ calls chain.2 = calls whole.2.
Proof.
  apply (serializeSchema_super_call true (VRef 4) 1 3 4 VUndefined family).
  reflexivity.
Defined.

Lemma deserializeSchema_super_call_witness :
  let chain := (r ← deserializeSchema (VRef 1) 1 payload VNull;
                deserializeSchema (VRef 1) 3 payload r) family in
  let whole := deserializeSchema (VRef 1) 4 payload VNull family in
  chain.1 = whole.1 ∧ store chain.2 = store whole.2 ∧ calls chain.2 = calls whole.2.
Proof.
  apply (deserializeSchema_super_call (VRef 1) 1 3 4 payload VNull family).
  reflexivity.
Defined.

Lemma verifySchema_result_witness :
  VStr "verify: Unknown enum value: nuclear" = VUndefined ∨
  ∃ msg, VStr "verify: Unknown enum value: nuclear" = VStr ("verify: " +:+ msg).
Proof.
  apply (verifySchema_result 1 nuclear world (verifySchema 1 nuclear world).2).
  apply ScenarioFacts.pair_eta_fst. by vm_compute.
Defined.

Lemma deserializeSchema_result_witness :
  VStr "Unknown enum value: nuclear" = VUndefined ∨
  truthy (VStr "Unknown enum value: nuclear") = true.
Proof.
  apply (deserializeSchema_result (VRef 1) 1 nuclear VNull world
           (deserializeSchema (VRef 1) 1 nuclear VNull world).2).
  apply ScenarioFacts.pair_eta_fst. by vm_compute.
Defined.


Lemma deserializeSchema_absent_target_witness :
  let r := deserializeSchema VNull 1 nuclear VNull world in
  (∃ msg, r.1 = Thrown (TypeError msg)) ∧ store r.2 = store world.
Proof.
  apply (deserializeSchema_absent_target VNull 1 nuclear VNull world).
  - reflexivity.
  - reflexivity.
  - reflexivity.
  - by vm_compute.
  - by vm_compute.
Defined.

Lemma verifySchema_throws_iff_witness :
  ((∃ e, (verifySchema 1 nuclearShadowed world).1 = Thrown e) ↔
   schemaAt world 1 ≠ [] ∧ ¬ answersOwnership (objects (store world)) nuclearShadowed) ∧
  (∀ e, (verifySchema 1 nuclearShadowed world).1 = Thrown e →
        (∃ msg, e = TypeError msg) ∧ (verifySchema 1 nuclearShadowed world).2 = world).
Proof.
  apply (verifySchema_throws_iff 1 nuclearShadowed world).
  intros l H. by vm_compute in H.
Defined.

(** The shadowed payload of the scenario does make [verifySchema] throw. *)
Example verify_shadowed :
  (verifySchema 1 nuclearShadowed world).1 =
  Thrown (TypeError "hasOwnProperty is not a function").
Proof. by vm_compute. Qed.

End DerivedFacts.

(** * The sound interface *)

Module SoundFacts.
Import Sound.

(** What a step that calls [play()] on a music instance guarantees. *)
Lemma step_play_guard (G_IS_DEV disableMusic : bool) (this : SoundInterface)
    (op : Op) (i : Instance) :
  MusicPlay i ∈ (step G_IS_DEV disableMusic this op).2 →
  musicMuted (step G_IS_DEV disableMusic this op).1 = false ∧
  currentMusic (step G_IS_DEV disableMusic this op).1 = CMusic i ∧
  (pageIsVisible (step G_IS_DEV disableMusic this op).1 = true ∨ op = SetMusicMuted false).
Proof.
  destruct op as [|k|muted|muted|visible isPlaying|k|k]; simpl.
  - by intros ?%not_elem_of_nil.
  - unfold loadSound. repeat case_match; intros Hin;
      apply list_elem_of_singleton in Hin; done.
  - destruct muted, (currentMusic this) as [| |j]; simpl; intros Hin;
      try (by apply not_elem_of_nil in Hin);
      apply list_elem_of_singleton in Hin; simplify_eq; auto.
  - by intros ?%not_elem_of_nil.
  - destruct (currentMusic this) as [| |j] eqn:Hcur; simpl;
      try (by intros ?%not_elem_of_nil).
    destruct visible; simpl.
    + destruct (isPlaying j); simpl; [by intros ?%not_elem_of_nil|].
      destruct (musicMuted this) eqn:Hm; simpl; [by intros ?%not_elem_of_nil|].
      intros Hin. apply list_elem_of_singleton in Hin. simplify_eq. auto.
    + intros Hin. apply list_elem_of_singleton in Hin. done.
  - unfold playUiSound. repeat case_match; intros Hin;
      try (by apply not_elem_of_nil in Hin);
      apply list_elem_of_singleton in Hin; done.
  - unfold playThemeMusic.
    destruct (differs (currentMusic this) (lookupMusic this (default "null" k))); simpl.
    + rewrite !elem_of_app. intros [Hin|[Hin|Hin]].
      * repeat case_match; try (by apply not_elem_of_nil in Hin);
          apply list_elem_of_singleton in Hin; done.
      * destruct (currentMusic this); try (by apply not_elem_of_nil in Hin).
        apply elem_of_cons in Hin as [?|Hin]; [done|].
        apply list_elem_of_singleton in Hin. done.
      * destruct (lookupMusic this (default "null" k)) as [| |j];
          try (by apply not_elem_of_nil in Hin).
        destruct (pageIsVisible this), (musicMuted this); simpl in *;
          try (by apply not_elem_of_nil in Hin).
        apply elem_of_cons in Hin as [?|Hin]; [done|].
        apply list_elem_of_singleton in Hin. simplify_eq. auto.
    + intros Hin. repeat case_match; try (by apply not_elem_of_nil in Hin);
        apply list_elem_of_singleton in Hin; done.
Qed.

(** X18: no operation starts music while music is muted, and the only track
    an operation starts is the current one: whenever a step calls [play()]
    on a music instance, that instance is [currentMusic] and [musicMuted] is
    false once the step is done. *)
Theorem music_started_unmuted (G_IS_DEV disableMusic : bool) (this : SoundInterface)
    (op : Op) (i : Instance) :
  MusicPlay i ∈ (step G_IS_DEV disableMusic this op).2 →
  musicMuted (step G_IS_DEV disableMusic this op).1 = false ∧
  currentMusic (step G_IS_DEV disableMusic this op).1 = CMusic i.
Proof.
  intros Hin. destruct (step_play_guard _ _ _ _ _ Hin) as (Hm & Hc & _). by split.
Qed.

(** X19: un-muting is the one operation that ignores page visibility: with a
    current track, [setMusicMuted(false)] calls its [play()] whether or not
    the page is visible and whether or not it is already playing, while every
    other operation that starts music leaves [pageIsVisible] true. *)
Theorem unmute_ignores_visibility (G_IS_DEV disableMusic : bool) (this : SoundInterface)
    (i : Instance) :
  currentMusic this = CMusic i →
  (setMusicMuted this false).2 = [MusicPlay i] ∧
  pageIsVisible (setMusicMuted this false).1 = pageIsVisible this ∧
  ∀ that op j, op ≠ SetMusicMuted false →
    MusicPlay j ∈ (step G_IS_DEV disableMusic that op).2 →
    pageIsVisible (step G_IS_DEV disableMusic that op).1 = true.
Proof.
  intros Hcur. unfold setMusicMuted. simpl. rewrite Hcur. split; [done|]. split; [done|].
  intros that op j Hop Hin.
  destruct (step_play_guard _ _ _ _ _ Hin) as (_ & _ & [Hv|Heq]); done.
Qed.

Lemma step_stays_muted (G_IS_DEV disableMusic : bool) (this : SoundInterface) (op : Op) :
  musicMuted this = true →
  op ≠ SetMusicMuted false →
  (op = Initialize → G_IS_DEV && disableMusic = true) →
  musicMuted (step G_IS_DEV disableMusic this op).1 = true.
Proof.
  intros Hm Hun Hinit.
  destruct op as [|k|muted|muted|visible isPlaying|k|k]; simpl; try done.
  - by rewrite Hinit.
  - by destruct muted.
  - unfold playThemeMusic. by destruct (differs _ _).
Qed.

(** X20: muted music stays silent: from a state with [musicMuted] set, a run
    of operations without [setMusicMuted(false)] (and without [initialize],
    which resets the flag unless the debug option [disableMusic] is on) never
    calls [play()] on a music instance, and ends muted. *)
Theorem muted_run_is_silent (G_IS_DEV disableMusic : bool) (ops : list Op) :
  ∀ this : SoundInterface,
  musicMuted this = true →
  Forall (λ op, op ≠ SetMusicMuted false ∧
                (op = Initialize → G_IS_DEV && disableMusic = true)) ops →
  musicMuted (run G_IS_DEV disableMusic this ops).1 = true ∧
  ∀ i, MusicPlay i ∉ (run G_IS_DEV disableMusic this ops).2.
Proof.
  induction ops as [|op rest IH]; intros this Hm Hops; simpl.
  - split; [done|]. intros i. apply not_elem_of_nil.
  - apply Forall_cons in Hops as [[Hun Hinit] Hrest].
    pose proof (step_stays_muted G_IS_DEV disableMusic this op Hm Hun Hinit) as Hm'.
    pose proof (λ i, step_play_guard G_IS_DEV disableMusic this op i) as Hguard.
    destruct (step G_IS_DEV disableMusic this op) as [this' events]. simpl in *.
    destruct (IH this' Hm' Hrest) as [Hend Hsilent].
    destruct (run G_IS_DEV disableMusic this' rest) as [final events']. simpl in *.
    split; [done|]. intros i [Hin|Hin]%elem_of_app.
    + destruct (Hguard i Hin) as [Hfalse _]. congruence.
    + by apply (Hsilent i).
Qed.

Lemma differs_same c : differs c c = false.
Proof. destruct c; simpl; [done|done|]. by rewrite bool_decide_eq_true_2. Qed.

(** X21: asking for the theme that is already current does nothing: a second
    [playThemeMusic(key)] leaves the interface as the first one left it and
    calls neither [play()] nor [stop()]; at most it repeats the "not found"
    warning. *)
Theorem playThemeMusic_idempotent (this : SoundInterface) (k : option string) :
  let first := playThemeMusic this k in
  let second := playThemeMusic first.1 k in
  second.1 = first.1 ∧
  ∀ e, e ∈ second.2 → ∃ name, e = Logged LWarn ["Music"; name; "not found"].
Proof.
  simpl.
  assert (∀ that, differs (currentMusic that) (lookupMusic that (default "null" k)) = false →
            (playThemeMusic that k).1 = that ∧
            ∀ e, e ∈ (playThemeMusic that k).2 →
                 ∃ name, e = Logged LWarn ["Music"; name; "not found"]) as Hsame.
  { intros that Hcur. unfold playThemeMusic. rewrite Hcur. simpl.
    split; [done|]. intros e He.
    repeat case_match; try (by apply not_elem_of_nil in He);
      apply list_elem_of_singleton in He; eauto. }
  apply Hsame. unfold playThemeMusic.
  destruct (differs (currentMusic this) (lookupMusic this (default "null" k))) eqn:Hd; simpl.
  - apply differs_same.
  - exact Hd.
Qed.

(** X22: [initialize] registers every sound under its path, not under its
    name in [SOUNDS]: afterwards [playUiSound(SOUNDS[name])] plays the
    instance created for [name], at full volume, while [playUiSound(name)]
    finds nothing unless an instance had been put under that name before. *)
Theorem sounds_keyed_by_path (G_IS_DEV disableMusic : bool) (this : SoundInterface)
    (name path : string) :
  (name, path) ∈ SOUNDS →
  let this' := initialize G_IS_DEV disableMusic this in
  (∃ i, playUiSound this' path = [SoundPlay i 1.0%float] ∧ key i = name ∧ url i = path) ∧
  (sounds this !! name = None →
   playUiSound this' name = [Logged LWarn ["Sound"; name; "not found, probably not loaded yet"]]).
Proof.
  intros Hin. unfold initialize, playUiSound. simpl.
  unfold SOUNDS in Hin. rewrite !elem_of_cons in Hin.
  destruct Hin as [Hin|[Hin|[Hin|[Hin|[Hin|[Hin|Hin]]]]]];
    try (by apply not_elem_of_nil in Hin); simplify_eq; (split; [|intros Hold]).
  all: repeat (first [rewrite lookup_insert_eq | rewrite lookup_insert_ne by done]).
  all: try (eexists; split; [reflexivity|done]).
  all: by rewrite Hold.
Qed.

Lemma initialize_witness_state :
  let this := initialize true false constructor in
  music this !! "main_menu.mp3" = Some {| id := 7; key := "mainMenu"; url := "main_menu.mp3" |} ∧
  musicMuted this = false ∧ pageIsVisible this = true.
Proof. by vm_compute. Qed.

Lemma music_started_unmuted_witness :
  let this := initialize true false constructor in
  let i := {| id := 7; key := "mainMenu"; url := "main_menu.mp3" |} in
  musicMuted (step true false this (PlayThemeMusic (Some "main_menu.mp3"))).1 = false ∧
  currentMusic (step true false this (PlayThemeMusic (Some "main_menu.mp3"))).1 = CMusic i.
Proof.
  apply (music_started_unmuted true false (initialize true false constructor)
           (PlayThemeMusic (Some "main_menu.mp3"))).
  vm_compute. apply elem_of_cons. right. apply elem_of_cons. by left.
Defined.

Lemma unmute_ignores_visibility_witness :
  let i := {| id := 7; key := "mainMenu"; url := "main_menu.mp3" |} in
  let hidden :=
    (onPageRenderableStateChanged
       (playThemeMusic (initialize true false constructor) (Some "main_menu.mp3")).1
       false (λ _, true)).1 in
  pageIsVisible hidden = false ∧
  (setMusicMuted hidden false).2 = [MusicPlay i] ∧
  pageIsVisible (setMusicMuted hidden false).1 = pageIsVisible hidden ∧
  ∀ that op j, op ≠ SetMusicMuted false →
    MusicPlay j ∈ (step true false that op).2 →
    pageIsVisible (step true false that op).1 = true.
Proof.
  split; [by vm_compute|].
  apply (unmute_ignores_visibility true false). by vm_compute.
Defined.

Lemma muted_run_is_silent_witness :
  let muted := (setMusicMuted (initialize true false constructor) true).1 in
  let ops := [PlayThemeMusic (Some "main_menu.mp3");
              PageRenderableStateChanged false (λ _, false);
              PageRenderableStateChanged true (λ _, false);
              PlayThemeMusic (Some "theme_full.mp3")] in
  musicMuted (run true false muted ops).1 = true ∧
  ∀ i, MusicPlay i ∉ (run true false muted ops).2.
Proof.
  apply (muted_run_is_silent true false).
  - reflexivity.
  - repeat (apply Forall_cons; split; [split; [discriminate|discriminate]|]).
    apply Forall_nil_2.
Defined.

Lemma sounds_keyed_by_path_witness :
  let this' := initialize true false constructor in
  (∃ i, playUiSound this' "ui/ui_click.mp3" = [SoundPlay i 1.0%float] ∧
        key i = "uiClick" ∧ url i = "ui/ui_click.mp3") ∧
  (sounds constructor !! "uiClick" = None →
   playUiSound this' "uiClick" =
     [Logged LWarn ["Sound"; "uiClick"; "not found, probably not loaded yet"]]).
Proof.
  apply (sounds_keyed_by_path true false constructor "uiClick" "ui/ui_click.mp3").
  apply elem_of_cons. by left.
Defined.

End SoundFacts.

(** * Upgrades of the hub *)

Module HubFacts.
Import Hub.

(** X24: a refused purchase costs nothing: unless [tryUnlockUgprade] returns
    [true], be it [false] or a fault, no counter has changed and neither the
    [upgradePurchased] signal nor the analytics call has happened. *)
Theorem tryUnlockUgprade_refused (G_IS_DEV upgradesNoCost : bool)
    (UPGRADES : gmap string Upgrade) (this : HubGoals) (upgradeId : string) :
  let r := tryUnlockUgprade G_IS_DEV upgradesNoCost UPGRADES this upgradeId in
  r.1.1 ≠ Returned true → r.1.2 = this ∧ r.2 = [].
Proof.
  simpl. unfold tryUnlockUgprade.
  destruct (canUnlockUpgrade _ _ _ _ _) as [[|]|msg]; simpl; try done.
  destruct (UPGRADES !! upgradeId) as [handle|]; simpl; [|done].
  destruct (elementAt 0 (tiers handle) _); simpl; done.
Qed.

(** X25: outside the no-cost debug mode [tryUnlockUgprade] returns exactly
    what [canUnlockUpgrade] returns, a fault included: its
    [if (!tierData) return false] never fires.  In every mode it succeeds only
    if [canUnlockUpgrade] allows the purchase. *)
Theorem tryUnlockUgprade_agrees (G_IS_DEV upgradesNoCost : bool)
    (UPGRADES : gmap string Upgrade) (this : HubGoals) (upgradeId : string) :
  let can := canUnlockUpgrade G_IS_DEV upgradesNoCost UPGRADES this upgradeId in
  let tried := (tryUnlockUgprade G_IS_DEV upgradesNoCost UPGRADES this upgradeId).1.1 in
  (G_IS_DEV && upgradesNoCost = false → tried = can) ∧
  (tried = Returned true → can = Returned true).
Proof.
  simpl. unfold tryUnlockUgprade. split.
  - intros Hcost.
    destruct (canUnlockUpgrade _ _ _ _ _) as [[|]|msg] eqn:Hcan; simpl; try done.
    unfold canUnlockUpgrade in Hcan. rewrite Hcost in Hcan.
    destruct (UPGRADES !! upgradeId) as [handle|]; simpl; [|done].
    destruct (PrimFloat.leb _ _); [done|].
    destruct (elementAt 0 (tiers handle) _); simpl; done.
  - destruct (canUnlockUpgrade _ _ _ _ _) as [[|]|msg]; simpl; done.
Qed.

Lemma takeShapes_other requirements : ∀ stored name,
  name ∉ shape <$> requirements →
  takeShapes stored requirements !! name = stored !! name.
Proof.
  induction requirements as [|requirement rest IH]; intros stored name Hn; simpl; [done|].
  rewrite fmap_cons in Hn. apply not_elem_of_cons in Hn as [Hne Hn].
  rewrite IH by done. by rewrite lookup_insert_ne.
Qed.

(** X26: what a purchase touches: it dispatches [upgradePurchased] and then
    reports to the analytics, with the level the upgrade had; it leaves the
    gained rewards, the levels and improvements of all other upgrades, and
    the stock of every shape the tier does not require as they were; in the
    no-cost debug mode it leaves the whole stock. *)
Theorem tryUnlockUgprade_frame (G_IS_DEV upgradesNoCost : bool)
    (UPGRADES : gmap string Upgrade) (this : HubGoals) (upgradeId : string)
    (handle : Upgrade) (tierData : Tier) :
  let r := tryUnlockUgprade G_IS_DEV upgradesNoCost UPGRADES this upgradeId in
  r.1.1 = Returned true →
  UPGRADES !! upgradeId = Some handle →
  elementAt 0 (tiers handle) (getUpgradeLevel this upgradeId) = Some tierData →
  r.2 = [UpgradePurchased upgradeId;
         HandleUpgradeUnlocked upgradeId (getUpgradeLevel this upgradeId)] ∧
  gainedRewards r.1.2 = gainedRewards this ∧
  (∀ other, other ≠ upgradeId →
     upgradeLevels r.1.2 !! other = upgradeLevels this !! other ∧
     upgradeImprovements r.1.2 !! other = upgradeImprovements this !! other) ∧
  (∀ name, name ∉ shape <$> required tierData →
     storedShapes r.1.2 !! name = storedShapes this !! name) ∧
  (G_IS_DEV && upgradesNoCost = true → storedShapes r.1.2 = storedShapes this).
Proof.
  simpl. unfold tryUnlockUgprade. intros Hok Hhandle Htier. revert Hok.
  destruct (canUnlockUpgrade _ _ _ _ _) as [[|]|msg]; simpl; try done.
  rewrite Hhandle, Htier. simpl. intros _.
  split; [done|]. split; [done|]. split; [|split].
  - intros other Hne. by rewrite !lookup_insert_ne.
  - intros name Hn. destruct (G_IS_DEV && upgradesNoCost); [done|].
    by apply takeShapes_other.
  - by intros ->.
Qed.

Example purchase_belt :
  let r := tryUnlockUgprade false false oneUpgrade (stocked 60) "belt" in
  r.1.1 = Returned true ∧
  storedShapes r.1.2 !! "CuCuCuCu" = Some 10%float ∧
  upgradeLevels r.1.2 !! "belt" = Some 1%float ∧
  upgradeImprovements r.1.2 !! "belt" = Some 1.5%float ∧
  canUnlockUpgrade false false oneUpgrade r.1.2 "belt" = Returned false.
Proof. by vm_compute. Qed.

Lemma tryUnlockUgprade_refused_witness :
  let r := tryUnlockUgprade false false oneUpgrade (stocked 49) "belt" in
  r.1.2 = stocked 49 ∧ r.2 = [].
Proof.
  apply (tryUnlockUgprade_refused false false oneUpgrade (stocked 49) "belt").
  by vm_compute.
Defined.

Lemma tryUnlockUgprade_frame_witness :
  let r := tryUnlockUgprade false false oneUpgrade (stocked 60) "belt" in
  r.2 = [UpgradePurchased "belt";
         HandleUpgradeUnlocked "belt" (getUpgradeLevel (stocked 60) "belt")] ∧
  gainedRewards r.1.2 = gainedRewards (stocked 60) ∧
  (∀ other, other ≠ "belt" →
     upgradeLevels r.1.2 !! other = upgradeLevels (stocked 60) !! other ∧
     upgradeImprovements r.1.2 !! other = upgradeImprovements (stocked 60) !! other) ∧
  (∀ name, name ∉ shape <$> required beltTier →
     storedShapes r.1.2 !! name = storedShapes (stocked 60) !! name) ∧
  (false && false = true → storedShapes r.1.2 = storedShapes (stocked 60)).
Proof.
  apply (tryUnlockUgprade_frame false false oneUpgrade (stocked 60) "belt"
           {| tiers := [beltTier] |} beltTier).
  - by vm_compute.
  - by vm_compute.
  - by vm_compute.
Defined.

End HubFacts.

